(** * requests-cpp (req.cpp): a shallow embedding and its checked properties

    The development follows [src/python-requests/req.cpp], the C++20 port of
    the Python requests API.  Every definition below is the translation of
    the C++ entity of the same name:

    - [std::string] is [string] (a sequence of 8-bit characters);
    - [std::vector<std::byte>] is [list byte];
    - [std::optional<T>] is [option T], a possibly null [std::shared_ptr<T>]
      is [option T] as well;
    - [std::map<std::string, V>] is a [gmap string V] where the code only
      looks keys up, and the list of its entries in key order where the code
      iterates over it;
    - [int] status codes and counters are [Z];
    - a function that may [throw] returns an [outcome]; a member function
      that mutates its object takes the object and returns the new one;
    - a coroutine returning [task<T>] is modelled by what one resumption of
      its task does: how far the body runs and what it leaves in the
      promise (section Tasks); who resumes the outermost coroutine is not
      modelled. *)

From Stdlib Require Import ZArith NArith Ascii String List Bool Lia DecimalString.
From Stdlib.Strings Require Import Byte.
From stdpp Require Import base option gmap strings list fin_maps.

Local Open Scope string_scope.
Local Open Scope Z_scope.
Local Open Scope list_scope.

(* ===================================================================== *)
(** ** Characters and strings *)
(* ===================================================================== *)

(** [std::tolower] / [std::toupper] on an [unsigned char], in the "C" locale
    the program starts in: only the 26 ASCII letters are mapped. *)
Definition tolower (c : ascii) : ascii :=
  let n := N_of_ascii c in
  if ((65 <=? n) && (n <=? 90))%N then ascii_of_N (n + 32) else c.

Definition toupper (c : ascii) : ascii :=
  let n := N_of_ascii c in
  if ((97 <=? n) && (n <=? 122))%N then ascii_of_N (n - 32) else c.

(** [for (auto& c : result) c = f(c)] *)
Fixpoint map_chars (f : ascii -> ascii) (s : string) : string :=
  match s with
  | EmptyString => EmptyString
  | String c s' => String (f c) (map_chars f s')
  end.

(** [std::to_string] on a signed and on an unsigned integer. *)
Definition to_string_int (z : Z) : string := NilZero.string_of_int (Z.to_int z).
Definition to_string_size (n : nat) : string := NilZero.string_of_uint (Nat.to_uint n).

(** [s.find(c) != npos] *)
Fixpoint has_char (c : ascii) (s : string) : bool :=
  match s with
  | EmptyString => false
  | String d s' => if Ascii.eqb c d then true else has_char c s'
  end.

(** [url.substr(0, prefix.size()) == prefix] *)
Definition starts_with (pre s : string) : bool := String.prefix pre s.

(** [t] occurs in [s] as a contiguous block. *)
Definition contains_substring (t s : string) : Prop :=
  exists a b, s = a +:+ t +:+ b.

(** Two characters that differ at most by the case of an ASCII letter. *)
Definition char_case_variant (a b : ascii) : Prop :=
  a = b \/
  ((65 <= N_of_ascii a <= 90)%N /\ N_of_ascii b = (N_of_ascii a + 32)%N) \/
  ((65 <= N_of_ascii b <= 90)%N /\ N_of_ascii a = (N_of_ascii b + 32)%N).

(** Two keys that are equal up to the case of their letters. *)
Inductive case_variant : string -> string -> Prop :=
| cv_nil : case_variant EmptyString EmptyString
| cv_cons a b s t :
    char_case_variant a b -> case_variant s t ->
    case_variant (String a s) (String b t).

(** [s.substr(pos)] for [pos <= s.size()], the only way the program calls
    it: the characters from position [pos] on. *)
Fixpoint drop_chars (pos : nat) (s : string) : string :=
  match pos, s with
  | O, _ => s
  | S p, String _ s' => drop_chars p s'
  | S _, EmptyString => EmptyString
  end.

(** [s.find(c)]: the position of the first [c], [None] for [npos]. *)
Fixpoint find_char (c : ascii) (s : string) : option nat :=
  match s with
  | EmptyString => None
  | String d s' =>
      if Ascii.eqb c d then Some O
      else match find_char c s' with
           | Some i => Some (S i)
           | None => None
           end
  end.

(** [s.find(c, pos)] *)
Definition find_char_from (c : ascii) (pos : nat) (s : string) : option nat :=
  match find_char c (drop_chars pos s) with
  | Some i => Some (pos + i)%nat
  | None => None
  end.

(** [s.find(needle)]: the position of the first occurrence of [needle]. *)
Fixpoint find_str (needle s : string) : option nat :=
  if String.prefix needle s then Some O
  else match s with
       | EmptyString => None
       | String _ s' =>
           match find_str needle s' with
           | Some i => Some (S i)
           | None => None
           end
       end.

(** [s.find_last_of(chars)]: the position of the last character of [s]
    that is one of [chars]. *)
Fixpoint find_last_of (chars s : string) : option nat :=
  match s with
  | EmptyString => None
  | String c s' =>
      match find_last_of chars s' with
      | Some i => Some (S i)
      | None => if has_char c chars then Some O else None
      end
  end.

(* ===================================================================== *)
(** ** Exceptions *)
(* ===================================================================== *)

(** The exception classes of the hierarchy rooted at [request_exception]. *)
Inductive exn_class :=
| request_exception | http_error | connection_error | proxy_error | ssl_error
| timeout_error | connect_timeout | read_timeout | url_required
| too_many_redirects | missing_schema | invalid_schema | invalid_url
| invalid_proxy_url | invalid_header | invalid_json_error
| chunked_encoding_error | content_decoding_error | stream_consumed_error
| retry_error | unrewindable_body_error.

(** The direct base class ([None] for the root, which derives from
    [std::runtime_error]). *)
Definition base_class (c : exn_class) : option exn_class :=
  match c with
  | request_exception => None
  | proxy_error | ssl_error => Some connection_error
  | connect_timeout | read_timeout => Some timeout_error
  | invalid_proxy_url => Some invalid_url
  | _ => Some request_exception
  end.

(** An exception object: its dynamic class and its [what()] message. *)
Record exn := Exn { exn_kind : exn_class; what : string }.

(** Result of a call: normal return, an exception in flight, or undefined
    behaviour (dereferencing a null adapter pointer). *)
Inductive outcome (A : Type) :=
| Returned (a : A)
| Thrown (e : exn)
| Undefined.
Arguments Returned {A} a.
Arguments Thrown {A} e.
Arguments Undefined {A}.

(** Sequencing of calls: an exception (or undefined behaviour) in the first
    call skips the rest, as stack unwinding does. *)
#[global] Instance outcome_ret : MRet outcome := fun A a => Returned a.
#[global] Instance outcome_bind : MBind outcome := fun A B k m =>
  match m with
  | Returned a => k a
  | Thrown e => Thrown e
  | Undefined => Undefined
  end.

Definition throws {A} (c : exn_class) (o : outcome A) : Prop :=
  exists msg, o = Thrown (Exn c msg).

(* ===================================================================== *)
(** ** Structures: case_insensitive_dict *)
(* ===================================================================== *)

(** [class case_insensitive_dict]: [data_] maps the lower-cased key to the
    pair (key as written, value). *)
Module case_insensitive_dict.

Abbreviation t := (gmap string (string * string)).

Definition to_lower (s : string) : string := map_chars tolower s.

Definition empty_dict : t := ∅.

(** [data_[to_lower(key)] = {key, value}] *)
Definition set (key value : string) (d : t) : t :=
  <[to_lower key := (key, value)]> d.

Definition get (key : string) (d : t) : option string :=
  match d !! to_lower key with
  | Some p => Some p.2
  | None => None
  end.

(** [data_.erase(to_lower(key)) > 0], with the dictionary after it. *)
Definition erase (key : string) (d : t) : bool * t :=
  (bool_decide (is_Some (d !! to_lower key)), delete (to_lower key) d).

Definition contains (key : string) (d : t) : bool :=
  bool_decide (is_Some (d !! to_lower key)).

Definition size (d : t) : nat := base.size d.
Definition empty (d : t) : bool := bool_decide (d = ∅).
Definition clear (d : t) : t := ∅.

End case_insensitive_dict.

(* ===================================================================== *)
(** ** Plain data holders *)
(* ===================================================================== *)

Definition default_redirect_limit : Z := 30.
Definition default_pool_size : Z := 10.
Definition default_retries : Z := 0.
Definition default_pool_block : bool := false.

(** [redirect_stati] *)
Definition redirect_stati : list Z := [301; 302; 303; 307; 308].

(** [struct timeout]: milliseconds, [None] waits for ever. *)
Record timeout := Timeout { connect : option Z; read : option Z }.

(** [struct cookie]; [expires] is a [system_clock] time point, in ticks. *)
Record cookie := Cookie {
  name : string;
  value : string;
  domain : string;
  path : string;
  domain_specified : bool;
  domain_initial_dot : bool;
  path_specified : bool;
  secure : bool;
  expires : option Z;
  discard : bool;
  comment : option string;
  comment_url : option string;
  http_only : bool;
  version : Z;
  rfc2109 : bool
}.

(** [cookie{name, value}]: the remaining members take their default
    member initialisers. *)
Definition cookie_of_name_value (n v : string) : cookie :=
  Cookie n v "" "/" false false false false None true None None false 0 false.

Definition set_value (v : string) (c : cookie) : cookie :=
  Cookie (name c) v (domain c) (path c) (domain_specified c)
    (domain_initial_dot c) (path_specified c) (secure c) (expires c)
    (discard c) (comment c) (comment_url c) (http_only c) (version c)
    (rfc2109 c).

Definition create_cookie (n v d p : string) (sec : bool) (e : option Z) : cookie :=
  Cookie n v d p false false false sec e true None None false 0 false.

(** [std::function<void(response&)>]: the program stores hooks and never
    calls one, so a hook is represented by the identity of the callable. *)
Definition hook_fn := nat.

(** [struct hooks] *)
Record hooks := Hooks { response_hooks : list hook_fn }.

Definition hooks_register_hook (fn : hook_fn) (h : hooks) : hooks :=
  Hooks (response_hooks h ++ [fn]).

(** [deregister_hook] ignores its argument and pops the last hook. *)
Definition hooks_deregister_hook (fn : hook_fn) (h : hooks) : bool * hooks :=
  match response_hooks h with
  | [] => (false, h)
  | _ :: _ => (true, Hooks (removelast (response_hooks h)))
  end.

Definition default_hooks : hooks := Hooks [].

(** [struct upload_file] *)
Record upload_file := UploadFile {
  field_name : string;
  filename : string;
  file_content : list byte;
  file_content_type : option string;
  file_headers : option case_insensitive_dict.t
}.

Definition files_dict := list upload_file.

(** [struct proxy_config] *)
Record proxy_config := ProxyConfig {
  proxy_http : option string;
  proxy_https : option string;
  proxy_socks5 : option string
}.

(** [std::variant<bool, std::string>] *)
Inductive verify_config :=
| verify_bool (b : bool)
| verify_path (ca_bundle : string).

(** [struct cert_config] *)
Record cert_config := CertConfig { cert_path : string; key_path : option string }.

(** [std::variant<std::string, std::vector<std::byte>>] *)
Inductive body_data :=
| data_string (s : string)
| data_bytes (b : list byte).

(* ===================================================================== *)
(** ** Cookies: cookie_jar *)
(* ===================================================================== *)

(** [class cookie_jar]: [cookies_] is a vector, kept in insertion order. *)
Module cookie_jar.

Abbreviation t := (list cookie).

(** An absent filter accepts every cookie; a present one is compared with
    [!=] on strings. *)
Definition filter_ok (f : option string) (s : string) : bool :=
  match f with
  | None => true
  | Some x => String.eqb s x
  end.

(** The [for] loop of [get]: the first cookie that passes the three
    [continue] tests is returned. *)
Fixpoint get (n : string) (dom pth : option string) (j : t) : option string :=
  match j with
  | [] => None
  | c :: rest =>
      if negb (String.eqb (name c) n) then get n dom pth rest
      else if negb (filter_ok dom (domain c)) then get n dom pth rest
      else if negb (filter_ok pth (path c)) then get n dom pth rest
      else Some (value c)
  end.

(** [std::remove_if] followed by [erase]: the flag says whether a cookie
    went away. *)
Definition erase (n : string) (j : t) : bool * t :=
  (existsb (fun c => String.eqb (name c) n) j,
   List.filter (fun c => negb (String.eqb (name c) n)) j).

(** The second loop of [set]: overwrite the value of the first cookie
    called [n]; [None] when there is none. *)
Fixpoint set_existing (n v : string) (j : t) : option t :=
  match j with
  | [] => None
  | c :: rest =>
      if String.eqb (name c) n then Some (set_value v c :: rest)
      else match set_existing n v rest with
           | Some rest' => Some (c :: rest')
           | None => None
           end
  end.

Definition set (n : string) (v : option string) (j : t) : t :=
  match v with
  | None => (erase n j).2
  | Some x =>
      match set_existing n x j with
      | Some j' => j'
      | None => j ++ [cookie_of_name_value n x]
      end
  end.

(** [cookies_.push_back(std::move(c))] *)
Definition set_cookie (c : cookie) (j : t) : t := j ++ [c].

(** [get_dict]: later cookies overwrite earlier ones of the same name. *)
Fixpoint get_dict_into (dom pth : option string) (j : t)
    (result : gmap string string) : gmap string string :=
  match j with
  | [] => result
  | c :: rest =>
      if negb (filter_ok dom (domain c)) then get_dict_into dom pth rest result
      else if negb (filter_ok pth (path c)) then get_dict_into dom pth rest result
      else get_dict_into dom pth rest (<[name c := value c]> result)
  end.

Definition get_dict (dom pth : option string) (j : t) : gmap string string :=
  get_dict_into dom pth j ∅.

(** [update]: [other] is the map's entries in key order. *)
Definition update (other : list (string * string)) (j : t) : t :=
  fold_left (fun acc kv => set kv.1 (Some kv.2) acc) other j.

Definition copy (j : t) : t := j.
Definition size (j : t) : nat := length j.
Definition empty (j : t) : bool := match j with [] => true | _ => false end.
Definition clear (j : t) : t := [].

(** The key the specification gives the jar. *)
Definition key_of (c : cookie) : string * string * string :=
  (name c, domain c, path c).

End cookie_jar.

Definition cookiejar_from_dict (cookie_dict : list (string * string)) : cookie_jar.t :=
  fold_left (fun jar kv => cookie_jar.set kv.1 (Some kv.2) jar) cookie_dict [].

(* ===================================================================== *)
(** ** Authentication handlers *)
(* ===================================================================== *)

(** [class auth_base] and its implementations.  [PR] is the class
    [prepared_request], declared ahead of its definition as in the source.
    A handler written by a user of the library is any function on the
    request, which may throw. *)
Inductive auth_base (PR : Type) :=
| http_basic_auth (username password : string)
| http_digest_auth (username password : string)
| http_proxy_auth (username password : string)
| custom_auth (call : PR -> outcome PR).
Arguments http_basic_auth {PR} username password.
Arguments http_digest_auth {PR} username password.
Arguments http_proxy_auth {PR} username password.
Arguments custom_auth {PR} call.

(** [virtual void operator()(prepared_request& r)]: the three handlers of
    the library have the body [{}]. *)
Definition auth_call {PR} (a : auth_base PR) (r : PR) : outcome PR :=
  match a with
  | http_basic_auth _ _ => Returned r
  | http_digest_auth _ _ => Returned r
  | http_proxy_auth _ _ => Returned r
  | custom_auth call => call r
  end.

(** [struct auth_credentials] *)
Record auth_credentials := AuthCredentials { cred_username : string; cred_password : string }.

(* ===================================================================== *)
(** ** PreparedRequest *)
(* ===================================================================== *)

Module prepared_request.

Record t := Build {
  method_ : string;
  url_ : string;
  headers_ : case_insensitive_dict.t;
  body_ : list byte;
  hooks_ : hooks;
  cookies_ : cookie_jar.t;
  body_position_ : option nat
}.

(** A default-constructed [prepared_request]. *)
Definition fresh : t := Build "" "" ∅ [] (Hooks []) [] None.

Definition method (r : t) : string := method_ r.
Definition url (r : t) : string := url_ r.
Definition headers (r : t) : case_insensitive_dict.t := headers_ r.
Definition body (r : t) : list byte := body_ r.
Definition get_hooks (r : t) : hooks := hooks_ r.

(** [path_url]: what follows the host, "/" when nothing does, and the
    whole URL when it has no "://". *)
Definition path_url (r : t) : string :=
  match find_str "://" (url_ r) with
  | None => url_ r
  | Some pos =>
      match find_char_from "/" (pos + 3) (url_ r) with
      | None => "/"
      | Some p => drop_chars p (url_ r)
      end
  end.

Definition with_method (m : string) (r : t) : t :=
  Build m (url_ r) (headers_ r) (body_ r) (hooks_ r) (cookies_ r) (body_position_ r).
Definition with_url (u : string) (r : t) : t :=
  Build (method_ r) u (headers_ r) (body_ r) (hooks_ r) (cookies_ r) (body_position_ r).
Definition with_headers (h : case_insensitive_dict.t) (r : t) : t :=
  Build (method_ r) (url_ r) h (body_ r) (hooks_ r) (cookies_ r) (body_position_ r).
Definition with_body (b : list byte) (r : t) : t :=
  Build (method_ r) (url_ r) (headers_ r) b (hooks_ r) (cookies_ r) (body_position_ r).
Definition with_hooks (h : hooks) (r : t) : t :=
  Build (method_ r) (url_ r) (headers_ r) (body_ r) h (cookies_ r) (body_position_ r).
Definition with_cookies (c : cookie_jar.t) (r : t) : t :=
  Build (method_ r) (url_ r) (headers_ r) (body_ r) (hooks_ r) c (body_position_ r).

(** [prepare_method]: copy, then upper-case every character in place. *)
Definition prepare_method (method : string) (r : t) : t :=
  with_method (map_chars toupper method) r.

(** The loop of [prepare_url] over the parameters, in key order. *)
Fixpoint append_params (first : bool) (params : list (string * string))
    (u : string) : string :=
  match params with
  | [] => u
  | (k, v) :: rest =>
      let u1 := if first then u else u +:+ "&" in
      append_params false rest (u1 +:+ (k +:+ "=" +:+ v))
  end.

Definition prepare_url (url : string) (params : option (list (string * string)))
    (r : t) : t :=
  match params with
  | Some (p :: ps) =>
      let u := url +:+ (if has_char "?" url then "&" else "?") in
      with_url (append_params true (p :: ps) u) r
  | _ => with_url url r
  end.

Definition prepare_headers (h : case_insensitive_dict.t) (r : t) : t :=
  with_headers h r.

Definition prepare_content_length (r : t) : t :=
  match body_ r with
  | [] => r
  | _ :: _ =>
      with_headers
        (case_insensitive_dict.set "Content-Length"
           (to_string_size (length (body_ r))) (headers_ r)) r
  end.

(** [prepare_body]: [files] is a parameter the body never reads. *)
Definition prepare_body (data : option body_data) (files : option files_dict)
    (json : option string) (r : t) : t :=
  let r1 :=
    match json with
    | Some s =>
        with_headers
          (case_insensitive_dict.set "Content-Type" "application/json"
             (headers_ r))
          (with_body (list_byte_of_string s) r)
    | None =>
        match data with
        | Some (data_string s) => with_body (list_byte_of_string s) r
        | Some (data_bytes b) => with_body b r
        | None => r
        end
    end in
  prepare_content_length r1.

(** [prepare_cookies] stores the jar; no header is written. *)
Definition prepare_cookies (cookies : cookie_jar.t) (r : t) : t :=
  with_cookies cookies r.

Definition prepare_auth (auth : auth_base t) (r : t) : outcome t :=
  auth_call auth r.

Definition prepare_hooks (h : hooks) (r : t) : t := with_hooks h r.

Definition register_hook (fn : hook_fn) (r : t) : t :=
  with_hooks (hooks_register_hook fn (hooks_ r)) r.

Definition deregister_hook (fn : hook_fn) (r : t) : bool * t :=
  let '(found, h) := hooks_deregister_hook fn (hooks_ r) in
  (found, with_hooks h r).

Definition copy (r : t) : t := r.

(** [prepare]: the seven steps in the order of the source.  [auth] is an
    optional shared pointer: both the optional and the pointer must be
    set for the handler to run. *)
Definition prepare (method url : string)
    (headers : option case_insensitive_dict.t)
    (files : option files_dict)
    (data : option body_data)
    (params : option (list (string * string)))
    (auth : option (option (auth_base t)))
    (cookies : option cookie_jar.t)
    (hooks_cfg : option hooks)
    (json : option string)
    (r : t) : outcome t :=
  let r := prepare_method method r in
  let r := prepare_url url params r in
  let r := match headers with Some h => prepare_headers h r | None => r end in
  let r := match cookies with Some c => prepare_cookies c r | None => r end in
  let r := prepare_body data files json r in
  r ← match auth with
      | Some (Some a) => prepare_auth a r
      | _ => Returned r
      end;
  Returned (match hooks_cfg with Some h => prepare_hooks h r | None => r end).

End prepared_request.

(* ===================================================================== *)
(** ** Request options and Response *)
(* ===================================================================== *)

(** [struct request_options] *)
Record request_options := RequestOptions {
  opt_params : option (list (string * string));
  opt_data : option body_data;
  opt_json : option string;
  opt_headers : option case_insensitive_dict.t;
  opt_cookies : option cookie_jar.t;
  opt_files : option files_dict;
  opt_auth : option (option (auth_base prepared_request.t));
  opt_timeout_cfg : option timeout;
  opt_allow_redirects : option bool;
  opt_proxies : option proxy_config;
  opt_hooks_cfg : option hooks;
  opt_stream : option bool;
  opt_verify : option verify_config;
  opt_cert : option cert_config
}.

(** [request_options{}] *)
Definition no_options : request_options :=
  RequestOptions None None None None None None None None None None None None
    None None.

(** [opts.allow_redirects = v] *)
Definition set_allow_redirects (v : bool) (o : request_options) : request_options :=
  RequestOptions (opt_params o) (opt_data o) (opt_json o) (opt_headers o)
    (opt_cookies o) (opt_files o) (opt_auth o) (opt_timeout_cfg o) (Some v)
    (opt_proxies o) (opt_hooks_cfg o) (opt_stream o) (opt_verify o)
    (opt_cert o).

Module response.

#[warnings="-register-all"]
Inductive t := Build {
  status_code_ : Z;
  headers_ : case_insensitive_dict.t;
  url_ : string;
  content_ : list byte;
  encoding_ : string;
  reason_ : string;
  cookies_ : cookie_jar.t;
  elapsed_ : Z;
  history_ : list t;
  request_ : option prepared_request.t
}.

(** A default-constructed [response]. *)
Definition fresh : t := Build 0 ∅ "" [] "" "" [] 0 [] None.

Definition status_code (r : t) : Z := status_code_ r.
Definition headers (r : t) := headers_ r.
Definition url (r : t) : string := url_ r.
Definition content (r : t) : list byte := content_ r.
Definition reason (r : t) : string := reason_ r.
Definition history (r : t) : list t := history_ r.

Definition set_status_code (code : Z) (r : t) : t :=
  Build code (headers_ r) (url_ r) (content_ r) (encoding_ r) (reason_ r)
    (cookies_ r) (elapsed_ r) (history_ r) (request_ r).
Definition set_url (u : string) (r : t) : t :=
  Build (status_code_ r) (headers_ r) u (content_ r) (encoding_ r) (reason_ r)
    (cookies_ r) (elapsed_ r) (history_ r) (request_ r).
Definition set_reason (s : string) (r : t) : t :=
  Build (status_code_ r) (headers_ r) (url_ r) (content_ r) (encoding_ r) s
    (cookies_ r) (elapsed_ r) (history_ r) (request_ r).
Definition set_headers (h : case_insensitive_dict.t) (r : t) : t :=
  Build (status_code_ r) h (url_ r) (content_ r) (encoding_ r) (reason_ r)
    (cookies_ r) (elapsed_ r) (history_ r) (request_ r).

Definition text (r : t) : string := string_of_list_byte (content_ r).

Definition ok (r : t) : bool := status_code_ r <? 400.

Definition is_redirect (r : t) : bool :=
  ((status_code_ r =? 301) || (status_code_ r =? 302) ||
   (status_code_ r =? 303) || (status_code_ r =? 307) ||
   (status_code_ r =? 308))
  && case_insensitive_dict.contains "Location" (headers_ r).

Definition is_permanent_redirect (r : t) : bool :=
  ((status_code_ r =? 301) || (status_code_ r =? 308))
  && case_insensitive_dict.contains "Location" (headers_ r).

(** [raise_for_status]: a [const] member function, so the only results
    are a normal return and the exception. *)
Definition raise_for_status (r : t) : outcome unit :=
  if status_code_ r >=? 400
  then Thrown (Exn http_error (to_string_int (status_code_ r) +:+ " " +:+ reason_ r))
  else Returned tt.

End response.


(* ===================================================================== *)
(** ** Request *)
(* ===================================================================== *)

Module request.

Record t := Build {
  method_ : string;
  url_ : string;
  headers_ : case_insensitive_dict.t;
  files_ : files_dict;
  data_ : body_data;
  params_ : list (string * string);
  auth_ : option (auth_base prepared_request.t);
  cookies_ : cookie_jar.t;
  hooks_ : hooks;
  json_ : option string
}.

(** The ten-argument constructor: a member keeps its default value when
    the matching optional is empty. *)
Definition make (method url : string)
    (headers : option case_insensitive_dict.t)
    (files : option files_dict)
    (data : option body_data)
    (params : option (list (string * string)))
    (auth : option (option (auth_base prepared_request.t)))
    (cookies : option cookie_jar.t)
    (hooks_cfg : option hooks)
    (json : option string) : t :=
  Build method url
    (default ∅ headers)
    (default [] files)
    (default (data_string "") data)
    (default [] params)
    (default None auth)
    (default [] cookies)
    (default (Hooks []) hooks_cfg)
    json.

(** [prepare]: empty containers are passed as [nullopt]; [data_] and
    [hooks_] are always passed. *)
Definition prepare (req : t) : outcome prepared_request.t :=
  prepared_request.prepare (method_ req) (url_ req)
    (if case_insensitive_dict.empty (headers_ req) then None
     else Some (headers_ req))
    (match files_ req with [] => None | _ => Some (files_ req) end)
    (Some (data_ req))
    (match params_ req with [] => None | _ => Some (params_ req) end)
    (match auth_ req with Some a => Some (Some a) | None => None end)
    (if cookie_jar.empty (cookies_ req) then None else Some (cookies_ req))
    (Some (hooks_ req))
    (json_ req)
    prepared_request.fresh.

End request.

(* ===================================================================== *)
(** ** Tasks *)
(* ===================================================================== *)

(** A type with a default constructor, and the value it makes. *)
Class default_constructible (T : Type) := default_value : T.

#[global] Instance response_default : default_constructible response.t :=
  response.fresh.

(** [task<T>::promise_type]: [value_] is default-constructed with the
    coroutine frame, [exception_] is empty until [unhandled_exception]. *)
Record promise_type (T : Type) := Promise {
  value_ : T;
  exception_ : option exn
}.
Arguments Promise {T} value_ exception_.
Arguments value_ {T} p.
Arguments exception_ {T} p.

(** What [handle_.resume()] does to a task that has not run yet
    ([initial_suspend] always suspends, so nothing has run before): the
    body runs until it suspends again.  It reaches [co_return v], or an
    exception leaves it, or it stops at a [co_await]; a body with
    undefined behaviour has no result. *)
Inductive run (T : Type) :=
| co_returned (v : T)
| exception_escaped (e : exn)
| suspended_at_co_await
| undefined.
Arguments co_returned {T} v.
Arguments exception_escaped {T} e.
Arguments suspended_at_co_await {T}.
Arguments undefined {T}.

(** The promise after that resumption: [return_value] stores the value,
    [unhandled_exception] the exception; a body stopped at a [co_await]
    has stored nothing. *)
Definition promise_after {T} `{default_constructible T} (r : run T)
    : option (promise_type T) :=
  match r with
  | co_returned v => Some (Promise v None)
  | exception_escaped e => Some (Promise default_value (Some e))
  | suspended_at_co_await => Some (Promise default_value None)
  | undefined => None
  end.

(** [await_resume]: rethrow the stored exception, else move the value out. *)
Definition await_resume {T} (p : promise_type T) : outcome T :=
  match exception_ p with
  | Some e => Thrown e
  | None => Returned (value_ p)
  end.

(** [co_await t] inside a coroutine body, where [awaited] is what resuming
    [t] does: [await_ready] is false and [await_suspend] calls
    [handle_.resume()] on [t] and returns [void].  The awaiting coroutine
    is then suspended and [await_suspend] has dropped its handle, so its
    own run ends here, whatever [t] did. *)
Definition co_await {T U} (awaited : run U) : run T :=
  match awaited with
  | undefined => undefined
  | _ => suspended_at_co_await
  end.

(** What a coroutine that did [co_await] on a task reads from it when it
    is resumed: [await_resume] on the promise the one resumption left. *)
Definition delivered {T} `{default_constructible T} (r : run T) : outcome T :=
  match promise_after r with
  | Some p => await_resume p
  | None => Undefined
  end.

(** The run of a body without [co_await], given as the outcome of
    executing it to its end. *)
Definition run_to_end {T} (o : outcome T) : run T :=
  match o with
  | Returned v => co_returned v
  | Thrown e => exception_escaped e
  | Undefined => undefined
  end.

(* ===================================================================== *)
(** ** Adapters *)
(* ===================================================================== *)

(** [class base_adapter]: the interface of a transport adapter.  [send] is
    a coroutine without a [co_await] of its own, as the one of
    [http_adapter] is: the field gives the execution of its body to the
    end, that is the response (or the exception) and the adapter after it. *)
Class base_adapter (A : Type) := {
  send : prepared_request.t -> bool -> option timeout -> verify_config ->
         option cert_config -> option proxy_config -> A ->
         outcome response.t * A;
  close : A -> A
}.

(** [class http_adapter] *)
Record http_adapter := HttpAdapter {
  pool_connections_ : Z;
  pool_maxsize_ : Z;
  max_retries_ : Z;
  pool_block_ : bool
}.

(** [http_adapter()] with its default arguments. *)
Definition default_http_adapter : http_adapter :=
  HttpAdapter default_pool_size default_pool_size default_retries
    default_pool_block.

(** [http_adapter::send]: a fresh response with status 200, reason "OK" and
    the URL of the request. *)
Definition http_adapter_send (request : prepared_request.t) (stream : bool)
    (timeout_cfg : option timeout) (verify : verify_config)
    (cert : option cert_config) (proxies : option proxy_config)
    (a : http_adapter) : outcome response.t * http_adapter :=
  let r := response.fresh in
  let r := response.set_status_code 200 r in
  let r := response.set_reason "OK" r in
  let r := response.set_url (prepared_request.url request) r in
  (Returned r, a).

#[global] Instance http_adapter_impl : base_adapter http_adapter := {|
  send := http_adapter_send;
  close := fun a => a
|}.

(** What a non-null [std::shared_ptr<base_adapter>] points to: an object
    of some class that implements the interface.  The pointer itself is an
    [option adapter_ptr], [None] being the null pointer.  Two map entries
    never share an object in this model. *)
Record adapter_ptr := AdapterPtr {
  adapter_type : Type;
  adapter_impl : base_adapter adapter_type;
  adapter_obj : adapter_type
}.
Arguments AdapterPtr {adapter_type adapter_impl} adapter_obj.

(** [std::map<std::string, V>] where the code iterates: the entries in
    increasing key order ([std::less<std::string>] compares bytes). *)
Module std_map.

(** [m[k] = v] *)
Fixpoint assign {V} (k : string) (v : V) (m : list (string * V)) : list (string * V) :=
  match m with
  | [] => [(k, v)]
  | (k', v') :: rest =>
      match String.compare k k' with
      | Lt => (k, v) :: m
      | Eq => (k, v) :: rest
      | Gt => (k', v') :: assign k v rest
      end
  end.

Fixpoint find {V} (k : string) (m : list (string * V)) : option V :=
  match m with
  | [] => None
  | (k', v') :: rest => if String.eqb k k' then Some v' else find k rest
  end.

End std_map.

(* ===================================================================== *)
(** ** Session *)
(* ===================================================================== *)

Module session.

Record t := Build {
  headers_ : case_insensitive_dict.t;
  cookies_ : cookie_jar.t;
  auth_ : option (auth_base prepared_request.t);
  proxies_ : proxy_config;
  hooks_ : hooks;
  params_ : list (string * string);
  stream_ : bool;
  verify_ : verify_config;
  cert_ : option cert_config;
  max_redirects_ : Z;
  trust_env_ : bool;
  adapters_ : list (string * option adapter_ptr)
}.

(** [session()] *)
Definition create : t :=
  Build
    (case_insensitive_dict.set "Connection" "keep-alive"
       (case_insensitive_dict.set "Accept-Encoding" "gzip, deflate"
          (case_insensitive_dict.set "Accept" "*/*"
             (case_insensitive_dict.set "User-Agent" "requests-cpp/1.0" ∅))))
    [] None (ProxyConfig None None None) (Hooks []) [] false
    (verify_bool true) None default_redirect_limit true
    (std_map.assign "http://" (Some (AdapterPtr default_http_adapter))
       (std_map.assign "https://" (Some (AdapterPtr default_http_adapter)) [])).

Definition with_adapters (a : list (string * option adapter_ptr)) (s : t) : t :=
  Build (headers_ s) (cookies_ s) (auth_ s) (proxies_ s) (hooks_ s)
    (params_ s) (stream_ s) (verify_ s) (cert_ s) (max_redirects_ s)
    (trust_env_ s) a.

Definition max_redirects (s : t) : Z := max_redirects_ s.

Definition set_max_redirects (m : Z) (s : t) : t :=
  Build (headers_ s) (cookies_ s) (auth_ s) (proxies_ s) (hooks_ s)
    (params_ s) (stream_ s) (verify_ s) (cert_ s) m (trust_env_ s)
    (adapters_ s).


(** [mount]: the pointer is stored as it is, a null one too. *)
Definition mount (prefix : string) (adapter : option adapter_ptr) (s : t) : t :=
  with_adapters (std_map.assign prefix adapter (adapters_ s)) s.

(** The loop of [get_adapter]: the first entry, in key order, whose key
    is a prefix of the URL. *)
Fixpoint first_prefix (url : string) (m : list (string * option adapter_ptr))
    : option (string * option adapter_ptr) :=
  match m with
  | [] => None
  | (prefix, adapter) :: rest =>
      if starts_with prefix url then Some (prefix, adapter)
      else first_prefix url rest
  end.

(** [get_adapter], the pointer it returns: [None] is the null pointer, a
    non-null pointer comes with the key of its entry.  The pointer is null
    when the entry found holds a null pointer, or when no prefix matches
    and [adapters_["http://"]] has no entry to return. *)
Definition get_adapter (url : string) (s : t) : option (string * adapter_ptr) :=
  match first_prefix url (adapters_ s) with
  | Some (key, Some a) => Some (key, a)
  | Some (_, None) => None
  | None =>
      match std_map.find "http://" (adapters_ s) with
      | Some (Some a) => Some ("http://", a)
      | _ => None
      end
  end.

(** [get_adapter], the session it leaves: [adapters_["http://"]] inserts a
    null entry when no prefix matches and the key is not in the map. *)
Definition after_get_adapter (url : string) (s : t) : t :=
  match first_prefix url (adapters_ s) with
  | Some _ => s
  | None =>
      match std_map.find "http://" (adapters_ s) with
      | Some _ => s
      | None => with_adapters (std_map.assign "http://" None (adapters_ s)) s
      end
  end.

(** [prepare_request] does not look at the session. *)
Definition prepare_request (req : request.t) (s : t) : outcome prepared_request.t :=
  request.prepare req.

(** [send], a coroutine: what one resumption of its task does, and the
    session after it.  The body selects the adapter, builds the task of
    the adapter's [send] (a null adapter is dereferenced here) and awaits
    it: the adapter's body runs, then the body of [send] is suspended at
    its [co_await]; the [co_return] is not reached. *)
Definition send (prepped : prepared_request.t) (opts : request_options) (s : t)
    : run response.t * t :=
  let s1 := after_get_adapter (prepared_request.url prepped) s in
  match get_adapter (prepared_request.url prepped) s with
  | None => (undefined, s1)
  | Some (key, a) =>
      let '(out, obj) :=
        @send (adapter_type a) (adapter_impl a) prepped
          (default (stream_ s) (opt_stream opts))
          (opt_timeout_cfg opts)
          (default (verify_ s) (opt_verify opts))
          (match opt_cert opts with Some c => Some c | None => cert_ s end)
          (match opt_proxies opts with
           | Some p => Some p
           | None => Some (proxies_ s)
           end)
          (adapter_obj a) in
      (co_await (run_to_end out),
       with_adapters
         (std_map.assign key
            (Some (@AdapterPtr (adapter_type a) (adapter_impl a) obj))
            (adapters_ s1)) s1)
  end.

(** [request], a coroutine: the request is built and prepared (an
    exception of the preparation leaves the body), then the task of [send]
    is awaited and the body is suspended at that [co_await]. *)
Definition request (method url : string) (opts : request_options) (s : t)
    : run response.t * t :=
  let req := request.make method url (opt_headers opts) (opt_files opts)
               (opt_data opts) (opt_params opts) (opt_auth opts)
               (opt_cookies opts) (opt_hooks_cfg opts) (opt_json opts) in
  match prepare_request req s with
  | Returned prepped =>
      let '(awaited, s') := send prepped opts s in
      (co_await awaited, s')
  | Thrown e => (exception_escaped e, s)
  | Undefined => (undefined, s)
  end.

Definition get (url : string) (opts : request_options) (s : t) :=
  request "GET" url opts s.
Definition post (url : string) (opts : request_options) (s : t) :=
  request "POST" url opts s.
Definition put (url : string) (opts : request_options) (s : t) :=
  request "PUT" url opts s.
Definition patch (url : string) (opts : request_options) (s : t) :=
  request "PATCH" url opts s.
Definition delete_ (url : string) (opts : request_options) (s : t) :=
  request "DELETE" url opts s.

(** [head]: [opts.allow_redirects = false;] then
    [return request("HEAD", url, std::move(opts));].  The member function
    [request] that it calls is an argument here, so that the call can be
    told from its result: no function of the program reads
    [allow_redirects].  The function of the source is [head request]. *)
Definition head {R} (request : string -> string -> request_options -> t -> R)
    (url : string) (opts : request_options) (s : t) : R :=
  let opts := set_allow_redirects false opts in
  request "HEAD" url opts s.

Definition options (url : string) (opts : request_options) (s : t) :=
  request "OPTIONS" url opts s.

End session.

(* ===================================================================== *)
(** ** Top-level API functions *)
(* ===================================================================== *)

(** [request], a coroutine: a session is made in the frame, the task of
    its [request] is awaited, and the body is suspended at that
    [co_await]. *)
Definition request (method url : string) (opts : request_options)
    : run response.t :=
  co_await (session.request method url opts session.create).1.

Definition get (url : string) (opts : request_options) := request "GET" url opts.
Definition post (url : string) (opts : request_options) := request "POST" url opts.
Definition put (url : string) (opts : request_options) := request "PUT" url opts.
Definition patch (url : string) (opts : request_options) := request "PATCH" url opts.
Definition delete_ (url : string) (opts : request_options) := request "DELETE" url opts.
Definition options (url : string) (opts : request_options) := request "OPTIONS" url opts.

(** [head]: [opts.allow_redirects = false;] then
    [return request("HEAD", url, std::move(opts));], with the function
    [request] that it calls as an argument, as for [session::head].  The
    function of the source is [head request]. *)
Definition head {R} (request : string -> string -> request_options -> R)
    (url : string) (opts : request_options) : R :=
  let opts := set_allow_redirects false opts in
  request "HEAD" url opts.

(* ===================================================================== *)
(** ** Utility functions *)
(* ===================================================================== *)

Module utils.

(** [get_encoding_from_headers]: what follows the first "charset=" of the
    Content-Type header, to the end of the value. *)
Definition get_encoding_from_headers (headers : case_insensitive_dict.t)
    : option string :=
  match case_insensitive_dict.get "Content-Type" headers with
  | None => None
  | Some ct =>
      match find_str "charset=" ct with
      | None => None
      | Some pos => Some (drop_chars (pos + 8) ct)
      end
  end.

Definition requote_uri (uri : string) : string := uri.
Definition unquote_unreserved (uri : string) : string := uri.
Definition urldefragauth (url : string) : string := url.

Definition prepend_scheme_if_needed (url scheme : string) : string :=
  match find_str "://" url with
  | Some _ => url
  | None => scheme +:+ "://" +:+ url
  end.

Definition default_headers : case_insensitive_dict.t :=
  case_insensitive_dict.set "Connection" "keep-alive"
    (case_insensitive_dict.set "Accept-Encoding" "gzip, deflate"
       (case_insensitive_dict.set "Accept" "*/*"
          (case_insensitive_dict.set "User-Agent" "requests-cpp/1.0" ∅))).

Definition default_user_agent (name : string) : string := name +:+ "/1.0".

Definition dict_from_cookiejar (cj : cookie_jar.t) : gmap string string :=
  cookie_jar.get_dict None None cj.

Definition add_dict_to_cookiejar (cj : cookie_jar.t)
    (cookie_dict : list (string * string)) : cookie_jar.t :=
  cookie_jar.update cookie_dict cj.

Definition super_len (s : string) : option nat := Some (String.length s).

(** [guess_filename]: what follows the last slash or backslash. *)
Definition guess_filename (path : string) : option string :=
  match find_last_of "/\" path with
  | None => Some path
  | Some pos => Some (drop_chars (pos + 1) path)
  end.

Definition select_proxy (url : string) (proxies : proxy_config) : option string :=
  if starts_with "https://" url then proxy_https proxies
  else if starts_with "http://" url then proxy_http proxies
  else None.

Definition should_bypass_proxies (url : string) (no_proxy : option string) : bool :=
  false.

End utils.


(** The names of the cookies of a jar, in order. *)
Definition cookie_names (j : cookie_jar.t) : list string := map name j.

(* ===================================================================== *)
(** ** A replaying adapter *)
(* ===================================================================== *)

(** A user-defined adapter, as [session::mount] accepts: it answers the
    successive [send] calls with the successive responses of a fixed chain
    and records the requests it was given.  It stands for a server that
    redirects a number of times before it answers. *)
Record replay_adapter := ReplayAdapter {
  pending : list response.t;
  seen : list prepared_request.t
}.

Definition replay_send (request : prepared_request.t) (stream : bool)
    (timeout_cfg : option timeout) (verify : verify_config)
    (cert : option cert_config) (proxies : option proxy_config)
    (a : replay_adapter) : outcome response.t * replay_adapter :=
  match pending a with
  | [] => (Thrown (Exn connection_error "connection closed"), a)
  | r :: rest => (Returned r, ReplayAdapter rest (seen a ++ [request]))
  end.

#[global] Instance replay_adapter_impl : base_adapter replay_adapter := {|
  send := replay_send;
  close := fun a => a
|}.

(** A response with the given status and, for a redirect, a [Location]. *)
Definition response_with (status : Z) (reason : string) (location : option string)
    : response.t :=
  let r := response.set_reason reason (response.set_status_code status response.fresh) in
  match location with
  | Some l => response.set_headers (case_insensitive_dict.set "Location" l ∅) r
  | None => r
  end.

Definition found_302 (location : string) : response.t :=
  response_with 302 "Found" (Some location).

(** A chain of [n] consecutive 302 responses followed by a last one. *)
Definition redirect_chain (n : nat) (last : response.t) : list response.t :=
  repeat (found_302 "http://example.com/next") n ++ [last].

(** A session with the given redirect limit whose "http://" traffic goes to
    a server replaying [chain]. *)
Definition session_replaying (limit : Z) (chain : list response.t) : session.t :=
  session.mount "http://" (Some (AdapterPtr (ReplayAdapter chain [])))
    (session.set_max_redirects limit session.create).

(** The adapter mounted under [prefix], when it is a replaying one: the
    responses it has not served yet. *)
Definition is_replaying (prefix : string) (left : list response.t) (s : session.t) : Prop :=
  exists sn, std_map.find prefix (session.adapters_ s)
             = Some (Some (AdapterPtr (ReplayAdapter left sn))).

(* ===================================================================== *)
(** ** The matching rules of the specification, for comparison *)
(* ===================================================================== *)

(** [suf] is the end of [s]. *)
Definition ends_with (suf s : string) : bool :=
  (String.length suf <=? String.length s)%nat &&
  String.eqb (substring (String.length s - String.length suf) (String.length suf) s) suf.

(** The domain-match rule in the words of the specification: a cookie
    domain with a leading dot matches the host it names and every
    sub-domain of it, a domain without one matches the equal host only. *)
Definition spec_domain_match (cookie_domain host : string) : bool :=
  match cookie_domain with
  | String "." bare => String.eqb host bare || ends_with cookie_domain host
  | _ => String.eqb host cookie_domain
  end.

(** The path-match rule in the words of the specification: the cookie path
    is a prefix of the request path that ends at a segment boundary. *)
Definition spec_path_match (cookie_path request_path : string) : bool :=
  starts_with cookie_path request_path &&
  (String.eqb request_path cookie_path
   || ends_with "/" cookie_path
   || match String.get (String.length cookie_path) request_path with
      | Some c => Ascii.eqb c "/"
      | None => false
      end).

(** What the code compares instead: the name, and each filter that is
    present, by equality. *)
Definition exact_match (n : string) (dom pth : option string) (c : cookie) : Prop :=
  name c = n /\
  (forall d, dom = Some d -> domain c = d) /\
  (forall p, pth = Some p -> path c = p).

(** The scheme of a URL in the sense of the specification: what precedes
    the first "://", if there is one. *)
Definition spec_scheme (url : string) : option string :=
  match index 0 "://" url with
  | Some i => Some (substring 0 i url)
  | None => None
  end.

(** The error the specification asks of request preparation for a URL
    without a scheme or with a scheme other than http and https. *)
Definition spec_url_error (url : string) : option exn_class :=
  match spec_scheme url with
  | None => Some missing_schema
  | Some sch =>
      let sch := map_chars tolower sch in
      if String.eqb sch "http" || String.eqb sch "https" then None
      else Some invalid_schema
  end.

(** The authentication argument is absent, null, or one of the three
    handlers of the library. *)
Definition library_auth (auth : option (option (auth_base prepared_request.t))) : Prop :=
  forall call, auth <> Some (Some (custom_auth call)).

(** The authentication handler, when it is one written by the user, has
    no undefined behaviour: it returns or throws. *)
Definition handler_defined (auth : option (option (auth_base prepared_request.t))) : Prop :=
  forall call r, auth = Some (Some (custom_auth call)) -> call r <> Undefined.

(** No character of [s] is a lower-case ASCII letter. *)
Definition no_lowercase (s : string) : Prop :=
  forall c, In c (list_ascii_of_string s) -> ~ (97 <= N_of_ascii c <= 122)%N.

(** The redirect rule in the words of the specification, for a server that
    answers with [n] consecutive 302 responses and then with [last]: below
    the limit the result is a response with [n] history entries and the
    status of [last], from the limit on it is the exception. *)
Definition spec_redirect_result (max_redirects : Z) (n : nat) (last : response.t)
    (out : outcome response.t) : Prop :=
  if Z.of_nat n <? max_redirects
  then exists r, out = Returned r
                 /\ length (response.history r) = n
                 /\ response.status_code r = response.status_code last
  else throws too_many_redirects out.

(** One query parameter as it is written into a URL. *)
Definition render_param (kv : string * string) : string :=
  kv.1 +:+ "=" +:+ kv.2.

(* ===================================================================== *)
(** * Properties *)
(* ===================================================================== *)

(** ** Case folding *)

Lemma tolower_upper_letter (a : ascii) :
  (65 <= N_of_ascii a <= 90)%N -> tolower a = ascii_of_N (N_of_ascii a + 32).
Proof.
  intros [Hlo Hhi]. unfold tolower.
  apply N.leb_le in Hlo. apply N.leb_le in Hhi.
  now rewrite Hlo, Hhi.
Qed.

Lemma tolower_not_upper (a : ascii) :
  (90 < N_of_ascii a)%N -> tolower a = a.
Proof.
  intros H. unfold tolower.
  replace (N_of_ascii a <=? 90)%N with false.
  - now rewrite andb_false_r.
  - symmetry. apply N.leb_gt. exact H.
Qed.

Lemma tolower_char_case_variant (a b : ascii) :
  char_case_variant a b -> tolower a = tolower b.
Proof.
  assert (shift : forall x y : ascii,
             (65 <= N_of_ascii x <= 90)%N ->
             N_of_ascii y = (N_of_ascii x + 32)%N -> tolower x = tolower y).
  { intros x y Hx Hy.
    rewrite (tolower_upper_letter x Hx).
    rewrite (tolower_not_upper y) by lia.
    now rewrite <- Hy, ascii_N_embedding. }
  intros [-> | [[Ha Hb] | [Hb Ha]]].
  - reflexivity.
  - now apply shift.
  - symmetry. now apply shift.
Qed.

Lemma to_lower_case_variant (s t : string) :
  case_variant s t ->
  case_insensitive_dict.to_lower s = case_insensitive_dict.to_lower t.
Proof.
  induction 1 as [| a b s t Hab _ IH]; cbn.
  - reflexivity.
  - unfold case_insensitive_dict.to_lower in IH.
    now rewrite (tolower_char_case_variant a b Hab), IH.
Qed.

(** Decides [case_variant] on two literal keys. *)
Ltac solve_case_variant :=
  repeat (apply cv_cons;
          [ first [ left; reflexivity
                  | right; left; cbn; lia
                  | right; right; cbn; lia ] | ]);
  apply cv_nil.

Lemma case_variant_refl (s : string) : case_variant s s.
Proof. induction s; constructor; [now left | assumption]. Qed.

Lemma dict_get_set_same_fold (d : case_insensitive_dict.t) (k k' v : string) :
  case_insensitive_dict.to_lower k = case_insensitive_dict.to_lower k' ->
  case_insensitive_dict.get k' (case_insensitive_dict.set k v d) = Some v.
Proof.
  intros Hk. unfold case_insensitive_dict.get, case_insensitive_dict.set.
  now rewrite <- Hk, lookup_insert_eq.
Qed.

(** C9.  A value stored under a key [X] of the case-insensitive header
    store is what [get] returns for every case variant [X'] of [X] (so
    [get X] and [get X'] agree), and when [set] is called twice with keys
    that are equal up to case, [get] returns the value of the last [set]. *)
Theorem dict_case_insensitive_last_set_wins
    (d : case_insensitive_dict.t) (X X' X2 v v2 : string) :
  case_variant X X' ->
  case_variant X X2 ->
  case_insensitive_dict.get X' (case_insensitive_dict.set X v d) = Some v
  /\ case_insensitive_dict.get X (case_insensitive_dict.set X v d)
     = case_insensitive_dict.get X' (case_insensitive_dict.set X v d)
  /\ case_insensitive_dict.get X'
       (case_insensitive_dict.set X2 v2 (case_insensitive_dict.set X v d))
     = Some v2
  /\ case_insensitive_dict.get X'
       (case_insensitive_dict.set X v (case_insensitive_dict.set X2 v2 d))
     = Some v.
Proof.
  intros HX' HX2.
  pose proof (to_lower_case_variant _ _ HX') as E1.
  pose proof (to_lower_case_variant _ _ HX2) as E2.
  repeat split.
  - now apply dict_get_set_same_fold.
  - rewrite !dict_get_set_same_fold; congruence.
  - apply dict_get_set_same_fold. congruence.
  - now apply dict_get_set_same_fold.
Qed.

Lemma dict_case_insensitive_last_set_wins_witness :
  case_insensitive_dict.get "x-token"
    (case_insensitive_dict.set "X-TOKEN" "b"
       (case_insensitive_dict.set "X-Token" "a" ∅)) = Some "b".
Proof.
  refine (proj1 (proj2 (proj2
    (dict_case_insensitive_last_set_wins ∅ "X-Token" "x-token" "X-TOKEN" "a" "b" _ _)))).
  - solve_case_variant.
  - solve_case_variant.
Defined.

(** ** Cookie jar reads *)

Lemma filter_ok_true (f : option string) (s : string) :
  cookie_jar.filter_ok f s = true <-> (forall x, f = Some x -> s = x).
Proof.
  destruct f as [x|]; cbn.
  - rewrite String.eqb_eq. split.
    + intros -> y [= <-]. reflexivity.
    + intros H. now apply H.
  - split; [intros _ x [=] | reflexivity].
Qed.

Lemma cookie_passes_iff (n : string) (dom pth : option string) (c : cookie) :
  (String.eqb (name c) n && cookie_jar.filter_ok dom (domain c)
   && cookie_jar.filter_ok pth (path c)) = true
  <-> exact_match n dom pth c.
Proof.
  unfold exact_match.
  rewrite !andb_true_iff, String.eqb_eq, !filter_ok_true. tauto.
Qed.

Lemma cookie_get_step (n : string) (dom pth : option string) (c : cookie)
    (rest : cookie_jar.t) :
  cookie_jar.get n dom pth (c :: rest) =
  if String.eqb (name c) n && cookie_jar.filter_ok dom (domain c)
     && cookie_jar.filter_ok pth (path c)
  then Some (value c) else cookie_jar.get n dom pth rest.
Proof.
  cbn. destruct (String.eqb (name c) n); cbn; [| reflexivity].
  destruct (cookie_jar.filter_ok dom (domain c)); cbn; [| reflexivity].
  destruct (cookie_jar.filter_ok pth (path c)); reflexivity.
Qed.

Example spec_rules_on_the_examples :
  spec_domain_match ".example.com" "sub.example.com" = true
  /\ spec_domain_match ".example.com" "example.com" = true
  /\ spec_domain_match ".example.com" "notexample.com" = false
  /\ spec_domain_match "example.com" "sub.example.com" = false
  /\ spec_path_match "/a" "/a" = true
  /\ spec_path_match "/a" "/a/b/c" = true
  /\ spec_path_match "/a" "/ab" = false.
Proof. repeat split. Qed.

(** C2, as stated, fails.  A jar holding one cookie with domain
    [.example.com] and path [/a] gives nothing when it is read for the host
    [sub.example.com], for the host [example.com], or for the request path
    [/a/b], although the rules of the specification match all three. *)
Lemma cookie_get_ignores_spec_matching :
  let c := create_cookie "sid" "1" ".example.com" "/a" false None in
  spec_domain_match (domain c) "sub.example.com" = true
  /\ spec_domain_match (domain c) "example.com" = true
  /\ spec_path_match (path c) "/a/b" = true
  /\ cookie_jar.get "sid" (Some "sub.example.com") None [c] = None
  /\ cookie_jar.get "sid" (Some "example.com") None [c] = None
  /\ cookie_jar.get "sid" None (Some "/a/b") [c] = None
  /\ ~ (forall (k : cookie) (host rpath : string),
          cookie_jar.get (name k) (Some host) (Some rpath) [k] = Some (value k)
          <-> spec_domain_match (domain k) host && spec_path_match (path k) rpath = true).
Proof.
  cbv zeta. repeat split.
  intros H.
  specialize (H (create_cookie "sid" "1" ".example.com" "/a" false None)
                "sub.example.com" "/a/b").
  destruct H as [_ H]. specialize (H eq_refl). discriminate H.
Qed.

(** C2, amended.  [get] returns a value exactly when the jar holds a cookie
    with the requested name whose domain is equal to the domain filter and
    whose path is equal to the path filter (a filter that is absent accepts
    every cookie); the value is that of the first such cookie in insertion
    order.  A leading dot and a path prefix play no role. *)
Theorem cookie_get_exact_match (n : string) (dom pth : option string)
    (j : cookie_jar.t) (v : string) :
  cookie_jar.get n dom pth j = Some v <->
  exists (before : list cookie) (c : cookie) (after : list cookie),
    j = before ++ c :: after
    /\ exact_match n dom pth c
    /\ value c = v
    /\ Forall (fun c' => ~ exact_match n dom pth c') before.
Proof.
  induction j as [| c rest IH].
  - cbn. split; [discriminate |].
    intros (before & c & after & E & _). now destruct before.
  - rewrite cookie_get_step.
    destruct (String.eqb (name c) n && cookie_jar.filter_ok dom (domain c)
              && cookie_jar.filter_ok pth (path c)) eqn:Hc.
    + apply cookie_passes_iff in Hc. split.
      * intros [= <-]. exists [], c, rest. repeat split; try apply Hc.
        constructor.
      * intros (before & c' & after & E & Hm & Hv & Hnone).
        destruct before as [| b before]; cbn in E; injection E as -> ->.
        -- now rewrite Hv.
        -- apply Forall_cons in Hnone. now destruct Hnone as [Hb _].
    + assert (Hn : ~ exact_match n dom pth c).
      { rewrite <- cookie_passes_iff, Hc. discriminate. }
      rewrite IH. split.
      * intros (before & c' & after & -> & Hm & Hv & Hnone).
        exists (c :: before), c', after. repeat split; try apply Hm; trivial.
        now constructor.
      * intros (before & c' & after & E & Hm & Hv & Hnone).
        destruct before as [| b before]; cbn in E; injection E as -> ->.
        -- contradiction.
        -- apply Forall_cons in Hnone. destruct Hnone as [_ Hrest].
           now exists before, c', after.
Qed.

(** ** Cookie jar writes *)

(** C7, as stated, fails.  Adding a cookie whose (name, domain, path) is
    already in the jar leaves the old entry and appends the new one: the
    jar then holds two entries with the same key, and [get] still returns
    the old value. *)
Lemma set_cookie_keeps_the_old_entry :
  let old := create_cookie "sid" "1" "example.com" "/" false None in
  let new := create_cookie "sid" "2" "example.com" "/" false None in
  cookie_jar.key_of old = cookie_jar.key_of new
  /\ NoDup (map cookie_jar.key_of [old])
  /\ cookie_jar.set_cookie new [old] = [old; new]
  /\ ~ NoDup (map cookie_jar.key_of (cookie_jar.set_cookie new [old]))
  /\ cookie_jar.get "sid" (Some "example.com") (Some "/")
       (cookie_jar.set_cookie new [old]) = Some "1".
Proof.
  cbv zeta. repeat split.
  - apply NoDup_singleton.
  - cbn. rewrite NoDup_cons. intros [Hnotin _]. apply Hnotin. left.
Qed.

(** C7, amended.  [set_cookie] always appends: the jar grows by one entry,
    every entry it held stays at its position, the new cookie is the last
    entry, and when an entry with the same (name, domain, path) was in the
    jar, the jar is no longer unique by (name, domain, path). *)
Theorem set_cookie_always_appends (c : cookie) (j : cookie_jar.t) :
  cookie_jar.size (cookie_jar.set_cookie c j) = S (cookie_jar.size j)
  /\ (forall (i : nat) (k : cookie),
        j !! i = Some k -> cookie_jar.set_cookie c j !! i = Some k)
  /\ cookie_jar.set_cookie c j !! cookie_jar.size j = Some c
  /\ (forall k : cookie,
        k ∈ j -> cookie_jar.key_of k = cookie_jar.key_of c ->
        ~ NoDup (map cookie_jar.key_of (cookie_jar.set_cookie c j))).
Proof.
  unfold cookie_jar.set_cookie, cookie_jar.size. repeat split.
  - rewrite length_app. cbn. lia.
  - intros i k Hk. now apply lookup_app_l_Some.
  - rewrite lookup_app_r by lia. now rewrite Nat.sub_diag.
  - intros k Hin Hkey Hnd.
    rewrite map_app in Hnd. cbn in Hnd.
    apply NoDup_app in Hnd. destruct Hnd as (_ & Hdisj & _).
    apply (Hdisj (cookie_jar.key_of c)).
    + rewrite <- Hkey. apply list_elem_of_In, in_map, list_elem_of_In, Hin.
    + left.
Qed.

Lemma set_cookie_always_appends_witness :
  ~ NoDup (map cookie_jar.key_of
             (cookie_jar.set_cookie
                (create_cookie "sid" "2" "example.com" "/" false None)
                [create_cookie "sid" "1" "example.com" "/" false None])).
Proof.
  refine (proj2 (proj2 (proj2
    (set_cookie_always_appends
       (create_cookie "sid" "2" "example.com" "/" false None)
       [create_cookie "sid" "1" "example.com" "/" false None])))
    (create_cookie "sid" "1" "example.com" "/" false None) _ _).
  - left.
  - reflexivity.
Defined.

(** ** Request preparation: method and URL *)

Lemma append_cons (x : ascii) (a b : string) :
  String x a +:+ b = String x (a +:+ b).
Proof. reflexivity. Qed.

Lemma append_assoc (a b c : string) : (a +:+ b) +:+ c = a +:+ (b +:+ c).
Proof.
  induction a as [| x a IH]; [reflexivity |].
  rewrite !append_cons. now rewrite IH.
Qed.

Lemma append_empty_r (a : string) : a +:+ "" = a.
Proof.
  induction a as [| x a IH]; [reflexivity |].
  rewrite append_cons. now rewrite IH.
Qed.

Lemma prefix_append (s t : string) : String.prefix s (s +:+ t) = true.
Proof.
  induction s as [| a s IH].
  - now destruct t.
  - rewrite append_cons. simpl.
    destruct (ascii_dec a a); [exact IH | contradiction].
Qed.

Lemma append_params_extends (ps : list (string * string)) (first : bool) (u : string) :
  exists t, prepared_request.append_params first ps u = u +:+ t.
Proof.
  revert first u. induction ps as [| [k v] ps IH]; intros first u; cbn.
  - exists "". symmetry. apply append_empty_r.
  - destruct (IH false ((if first then u else u +:+ "&") +:+ (k +:+ "=" +:+ v)))
      as [t Ht].
    rewrite Ht. destruct first.
    + eexists. apply append_assoc.
    + eexists. rewrite !append_assoc. reflexivity.
Qed.

Lemma prepare_url_keeps_url (url : string) (params : option (list (string * string)))
    (r : prepared_request.t) :
  String.prefix url (prepared_request.url (prepared_request.prepare_url url params r)) = true
  /\ (params = None \/ params = Some [] ->
      prepared_request.url (prepared_request.prepare_url url params r) = url).
Proof.
  unfold prepared_request.prepare_url.
  destruct params as [[| p ps] |]; cbn -[prepared_request.append_params].
  - split; [| reflexivity].
    rewrite <- (append_empty_r url) at 2. apply prefix_append.
  - split.
    + destruct (append_params_extends (p :: ps) true
                  (url +:+ (if has_char "?" url then "&" else "?"))) as [t Ht].
      rewrite Ht, append_assoc. apply prefix_append.
    + intros [H | H]; discriminate H.
  - split; [| reflexivity].
    rewrite <- (append_empty_r url) at 2. apply prefix_append.
Qed.

Lemma prepare_content_length_keeps (r : prepared_request.t) :
  let r' := prepared_request.prepare_content_length r in
  prepared_request.method_ r' = prepared_request.method_ r
  /\ prepared_request.url_ r' = prepared_request.url_ r
  /\ prepared_request.body_ r' = prepared_request.body_ r.
Proof.
  unfold prepared_request.prepare_content_length.
  destruct (prepared_request.body_ r) eqn:E; cbn; rewrite ?E; auto.
Qed.

Lemma prepare_body_keeps (data : option body_data) (files : option files_dict)
    (json : option string) (r : prepared_request.t) :
  let r' := prepared_request.prepare_body data files json r in
  prepared_request.method_ r' = prepared_request.method_ r
  /\ prepared_request.url_ r' = prepared_request.url_ r.
Proof.
  unfold prepared_request.prepare_body. cbv zeta.
  match goal with
  | |- context [prepared_request.prepare_content_length ?x] =>
      destruct (prepare_content_length_keeps x) as (-> & -> & _)
  end.
  destruct json as [s |]; [now cbn |].
  destruct data as [[s | b] |]; now cbn.
Qed.

(** The result of [prepare] when no user-written handler runs: the method
    and the URL are those set by its first two steps. *)
Lemma prepare_library_auth (method url : string)
    (headers : option case_insensitive_dict.t) (files : option files_dict)
    (data : option body_data) (params : option (list (string * string)))
    (auth : option (option (auth_base prepared_request.t)))
    (cookies : option cookie_jar.t) (hooks_cfg : option hooks)
    (json : option string) (r0 : prepared_request.t) :
  library_auth auth ->
  exists r,
    prepared_request.prepare method url headers files data params auth cookies
      hooks_cfg json r0 = Returned r
    /\ prepared_request.method r = map_chars toupper method
    /\ prepared_request.url r
       = prepared_request.url (prepared_request.prepare_url url params r0).
Proof.
  intros Hlib. unfold prepared_request.prepare.
  set (r5 := prepared_request.prepare_body data files json _).
  assert (Hauth : match auth with
                  | Some (Some a) => prepared_request.prepare_auth a r5
                  | _ => Returned r5
                  end = Returned r5).
  { destruct auth as [[[u p | u p | u p | call] |] |]; try reflexivity.
    now destruct (Hlib call). }
  rewrite Hauth. cbn [mbind outcome_bind].
  eexists. split; [reflexivity |].
  assert (Hm : prepared_request.method_ r5 = map_chars toupper method
               /\ prepared_request.url_ r5
                  = prepared_request.url (prepared_request.prepare_url url params r0)).
  { subst r5.
    match goal with
    | |- context [prepared_request.prepare_body ?d ?f ?j ?x] =>
        destruct (prepare_body_keeps d f j x) as (-> & ->)
    end.
    destruct cookies, headers, params as [[| q qs] |]; now cbn. }
  destruct hooks_cfg; cbn; exact Hm.
Qed.

Example spec_url_error_examples :
  spec_url_error "example.com/index.html" = Some missing_schema
  /\ spec_url_error "ftp://example.com/file" = Some invalid_schema
  /\ spec_url_error "HTTPS://example.com/" = None.
Proof. repeat split. Qed.

(** C5, as stated, fails.  Preparation returns normally, with the URL kept
    as given, for a URL without a scheme, for a URL with the scheme ftp and
    for a URL that names no host: no exception of the three is raised. *)
Lemma prepare_accepts_every_url :
  let prep := fun url =>
    prepared_request.prepare "GET" url None None None None None None None None
      prepared_request.fresh in
  spec_url_error "example.com/index.html" = Some missing_schema
  /\ spec_url_error "ftp://example.com/file" = Some invalid_schema
  /\ (exists r, prep "example.com/index.html" = Returned r
                /\ prepared_request.url r = "example.com/index.html")
  /\ (exists r, prep "ftp://example.com/file" = Returned r
                /\ prepared_request.url r = "ftp://example.com/file")
  /\ (exists r, prep "http://" = Returned r /\ prepared_request.url r = "http://")
  /\ ~ (forall url, spec_url_error url = Some missing_schema ->
                    throws missing_schema (prep url))
  /\ ~ (forall url, spec_url_error url = Some invalid_schema ->
                    throws invalid_schema (prep url)).
Proof.
  cbv zeta. repeat split.
  - eexists. split; reflexivity.
  - eexists. split; reflexivity.
  - eexists. split; reflexivity.
  - intros H. destruct (H "example.com/index.html" eq_refl) as [msg Hmsg].
    discriminate Hmsg.
  - intros H. destruct (H "ftp://example.com/file" eq_refl) as [msg Hmsg].
    discriminate Hmsg.
Qed.

Lemma append_params_rest (ps : list (string * string)) (acc : string) :
  prepared_request.append_params false ps acc
  = acc +:+ match ps with
            | [] => ""
            | _ :: _ => "&" +:+ String.concat "&" (map render_param ps)
            end.
Proof.
  revert acc. induction ps as [| [k v] ps IH]; intros acc.
  - cbn. now rewrite append_empty_r.
  - cbn [prepared_request.append_params]. rewrite IH.
    destruct ps as [| q qs].
    + change (String.concat "&" (map render_param [(k, v)]))
        with (k +:+ "=" +:+ v).
      now rewrite append_empty_r, !append_assoc.
    + change (String.concat "&" (map render_param ((k, v) :: q :: qs)))
        with ((k +:+ "=" +:+ v) +:+ "&"
              +:+ String.concat "&" (map render_param (q :: qs))).
      now rewrite !append_assoc.
Qed.

Lemma prepare_url_rendered (url : string)
    (params : option (list (string * string))) (r : prepared_request.t) :
  prepared_request.url (prepared_request.prepare_url url params r)
  = match params with
    | Some (p :: ps) =>
        url +:+ (if has_char "?" url then "&" else "?")
            +:+ String.concat "&" (map render_param (p :: ps))
    | _ => url
    end.
Proof.
  destruct params as [[| [k v] ps] |]; try reflexivity.
  unfold prepared_request.prepare_url, prepared_request.url.
  cbn [prepared_request.url_ prepared_request.with_url
       prepared_request.append_params].
  rewrite append_params_rest. destruct ps as [| q qs].
  - change (String.concat "&" (map render_param [(k, v)]))
      with (k +:+ "=" +:+ v).
    now rewrite append_empty_r, !append_assoc.
  - change (String.concat "&" (map render_param ((k, v) :: q :: qs)))
      with ((k +:+ "=" +:+ v) +:+ "&"
            +:+ String.concat "&" (map render_param (q :: qs))).
    now rewrite !append_assoc.
Qed.

(** C5, amended.  For every input URL, with or without a scheme, request
    preparation with a handler of the library (or none) returns normally.
    The prepared URL is the input URL when there are no parameters;
    otherwise it is the input URL followed by "?" (by "&" when the URL
    already holds a "?") and by the parameters, written key=value and
    joined by "&".  In both cases it starts with the input URL.  No URL
    makes preparation fail. *)
Theorem prepare_never_rejects_a_url (method url : string)
    (headers : option case_insensitive_dict.t) (files : option files_dict)
    (data : option body_data) (params : option (list (string * string)))
    (auth : option (option (auth_base prepared_request.t)))
    (cookies : option cookie_jar.t) (hooks_cfg : option hooks)
    (json : option string) (r0 : prepared_request.t) :
  library_auth auth ->
  exists r,
    prepared_request.prepare method url headers files data params auth cookies
      hooks_cfg json r0 = Returned r
    /\ prepared_request.url r
       = match params with
         | Some (p :: ps) =>
             url +:+ (if has_char "?" url then "&" else "?")
                 +:+ String.concat "&" (map render_param (p :: ps))
         | _ => url
         end
    /\ String.prefix url (prepared_request.url r) = true
    /\ (params = None \/ params = Some [] -> prepared_request.url r = url).
Proof.
  intros Hlib.
  destruct (prepare_library_auth method url headers files data params auth
              cookies hooks_cfg json r0 Hlib) as (r & Hr & _ & Hu).
  exists r. split; [exact Hr |]. rewrite Hu.
  split; [apply prepare_url_rendered |].
  apply prepare_url_keeps_url.
Qed.

Lemma prepare_never_rejects_a_url_witness :
  exists r,
    prepared_request.prepare "get" "example.com/search?lang=en" None None None
      (Some [("q", "a b"); ("sort", "stars")])
      (Some (Some (http_basic_auth "user" "passwd"))) None None None
      prepared_request.fresh = Returned r
    /\ prepared_request.url r
       = "example.com/search?lang=en" +:+ "&"
           +:+ String.concat "&"
                 (map render_param [("q", "a b"); ("sort", "stars")])
    /\ String.prefix "example.com/search?lang=en" (prepared_request.url r) = true
    /\ (Some [("q", "a b"); ("sort", "stars")] = None \/
        Some [("q", "a b"); ("sort", "stars")] = Some [] ->
        prepared_request.url r = "example.com/search?lang=en").
Proof.
  apply (prepare_never_rejects_a_url "get" "example.com/search?lang=en" None
           None None (Some [("q", "a b"); ("sort", "stars")])
           (Some (Some (http_basic_auth "user" "passwd"))) None None None
           prepared_request.fresh).
  intros call H. discriminate H.
Defined.

Lemma toupper_lower_letter (a : ascii) :
  (97 <= N_of_ascii a <= 122)%N -> toupper a = ascii_of_N (N_of_ascii a - 32).
Proof.
  intros [Hlo Hhi]. unfold toupper.
  apply N.leb_le in Hlo. apply N.leb_le in Hhi.
  now rewrite Hlo, Hhi.
Qed.

Lemma toupper_other (a : ascii) :
  ~ (97 <= N_of_ascii a <= 122)%N -> toupper a = a.
Proof.
  intros H. unfold toupper.
  destruct (97 <=? N_of_ascii a)%N eqn:Hlo; [| reflexivity].
  destruct (N_of_ascii a <=? 122)%N eqn:Hhi; [| reflexivity].
  apply N.leb_le in Hlo. apply N.leb_le in Hhi. lia.
Qed.

Lemma toupper_spec (a : ascii) :
  char_case_variant a (toupper a) /\ ~ (97 <= N_of_ascii (toupper a) <= 122)%N.
Proof.
  destruct (decide (97 <= N_of_ascii a <= 122)%N) as [Hl | Hn].
  - rewrite (toupper_lower_letter a Hl).
    assert (E : N_of_ascii (ascii_of_N (N_of_ascii a - 32)) = (N_of_ascii a - 32)%N)
      by (apply N_ascii_embedding; lia).
    split.
    + right. right. rewrite E. lia.
    + rewrite E. lia.
  - rewrite (toupper_other a Hn). split; [now left | exact Hn].
Qed.

Lemma map_toupper_spec (s : string) :
  case_variant s (map_chars toupper s) /\ no_lowercase (map_chars toupper s).
Proof.
  induction s as [| a s [IHv IHn]]; cbn.
  - split; [constructor | intros c []].
  - split.
    + constructor; [apply toupper_spec | exact IHv].
    + intros c [<- | Hin]; [apply toupper_spec | now apply IHn].
Qed.

(** C6, as stated, fails.  An empty method does not make preparation fail:
    it returns a request whose method is empty. *)
Lemma prepare_accepts_empty_method :
  (exists r,
     prepared_request.prepare "" "http://example.com/" None None None None None
       None None None prepared_request.fresh = Returned r
     /\ prepared_request.method r = "")
  /\ ~ (exists e,
          prepared_request.prepare "" "http://example.com/" None None None None
            None None None None prepared_request.fresh = Thrown e).
Proof.
  split.
  - eexists. split; reflexivity.
  - intros [e He]. discriminate He.
Qed.

(** C6, amended.  For every method string, the empty one included, request
    preparation with a handler of the library (or none) returns normally
    and the prepared method is the upper-cased form of the input: equal to
    it up to the case of letters, and free of lower-case letters.  For the
    empty method the prepared method is empty. *)
Theorem prepare_method_upper_cases (method url : string)
    (headers : option case_insensitive_dict.t) (files : option files_dict)
    (data : option body_data) (params : option (list (string * string)))
    (auth : option (option (auth_base prepared_request.t)))
    (cookies : option cookie_jar.t) (hooks_cfg : option hooks)
    (json : option string) (r0 : prepared_request.t) :
  library_auth auth ->
  exists r,
    prepared_request.prepare method url headers files data params auth cookies
      hooks_cfg json r0 = Returned r
    /\ case_variant method (prepared_request.method r)
    /\ no_lowercase (prepared_request.method r)
    /\ (method = "" -> prepared_request.method r = "").
Proof.
  intros Hlib.
  destruct (prepare_library_auth method url headers files data params auth
              cookies hooks_cfg json r0 Hlib) as (r & Hr & Hm & _).
  exists r. split; [exact Hr |]. rewrite Hm.
  destruct (map_toupper_spec method) as [Hv Hn].
  repeat split; try assumption.
  now intros ->.
Qed.

Lemma prepare_method_upper_cases_witness :
  exists r,
    prepared_request.prepare "" "http://example.com/" None None None None None
      None None None prepared_request.fresh = Returned r
    /\ case_variant "" (prepared_request.method r)
    /\ no_lowercase (prepared_request.method r)
    /\ ("" = "" -> prepared_request.method r = "").
Proof.
  apply (prepare_method_upper_cases "" "http://example.com/" None None None
           None None None None None prepared_request.fresh).
  intros call H. discriminate H.
Defined.

(** ** Request preparation: body and authentication *)

Lemma content_length_keeps_content_type (r : prepared_request.t) :
  case_insensitive_dict.get "Content-Type"
    (prepared_request.headers_ (prepared_request.prepare_content_length r))
  = case_insensitive_dict.get "Content-Type" (prepared_request.headers_ r).
Proof.
  unfold prepared_request.prepare_content_length.
  destruct (prepared_request.body_ r); [reflexivity |].
  cbn [prepared_request.headers_ prepared_request.with_headers].
  unfold case_insensitive_dict.get, case_insensitive_dict.set.
  rewrite lookup_insert_ne; [reflexivity |].
  intros H. vm_compute in H. discriminate H.
Qed.

Lemma prepare_body_result (data : option body_data) (files : option files_dict)
    (json : option string) (r : prepared_request.t) :
  prepared_request.body (prepared_request.prepare_body data files json r)
  = match json, data with
    | Some s, _ => list_byte_of_string s
    | None, Some (data_string s) => list_byte_of_string s
    | None, Some (data_bytes b) => b
    | None, None => prepared_request.body r
    end.
Proof.
  unfold prepared_request.prepare_body, prepared_request.body. cbv zeta.
  match goal with
  | |- context [prepared_request.prepare_content_length ?x] =>
      destruct (prepare_content_length_keeps x) as (_ & _ & ->)
  end.
  destruct json as [s |]; [reflexivity |].
  destruct data as [[s | b] |]; reflexivity.
Qed.

(** Body construction knows two sources.  If json is present it is
    serialized to the body bytes and Content-Type is set to
    application/json, whatever data and files are.  Otherwise data, when
    present, becomes the body verbatim (the bytes of the string, or the raw
    bytes) and Content-Type is left as it was; with no data the body is left
    as it was.  The files argument never changes the result. *)
Theorem prepare_body_json_then_data (data : option body_data)
    (files : option files_dict) (json : option string) (r : prepared_request.t) :
  let r' := prepared_request.prepare_body data files json r in
  (forall s, json = Some s ->
     prepared_request.body r' = list_byte_of_string s
     /\ case_insensitive_dict.get "Content-Type" (prepared_request.headers r')
        = Some "application/json")
  /\ (forall s, json = None -> data = Some (data_string s) ->
        prepared_request.body r' = list_byte_of_string s)
  /\ (forall b, json = None -> data = Some (data_bytes b) ->
        prepared_request.body r' = b)
  /\ (json = None -> data = None ->
        prepared_request.body r' = prepared_request.body r)
  /\ (json = None ->
        case_insensitive_dict.get "Content-Type" (prepared_request.headers r')
        = case_insensitive_dict.get "Content-Type" (prepared_request.headers r))
  /\ (forall files', prepared_request.prepare_body data files' json r = r').
Proof.
  cbv zeta. repeat split.
  - rewrite prepare_body_result. now subst json.
  - subst json. unfold prepared_request.prepare_body, prepared_request.headers.
    rewrite content_length_keeps_content_type.
    cbn [prepared_request.headers_ prepared_request.with_headers
         prepared_request.with_body].
    now apply dict_get_set_same_fold.
  - intros s -> ->. now rewrite prepare_body_result.
  - intros b -> ->. now rewrite prepare_body_result.
  - intros -> ->. now rewrite prepare_body_result.
  - intros ->. unfold prepared_request.prepare_body, prepared_request.headers.
    rewrite content_length_keeps_content_type.
    destruct data as [[s | b] |]; reflexivity.
Qed.

Lemma prepare_body_json_then_data_witness :
  prepared_request.body
    (prepared_request.prepare_body (Some (data_string "a=1")) None
       (Some "{}") prepared_request.fresh) = list_byte_of_string "{}"
  /\ case_insensitive_dict.get "Content-Type"
       (prepared_request.headers
          (prepared_request.prepare_body (Some (data_string "a=1")) None
             (Some "{}") prepared_request.fresh)) = Some "application/json".
Proof.
  exact (proj1 (prepare_body_json_then_data (Some (data_string "a=1")) None
                  (Some "{}") prepared_request.fresh) "{}" eq_refl).
Defined.

(** C4: the code does not do what the claim (and the comment on the
    function, "Encode body from data/files/json") says for files.  The
    files argument is never read: body construction gives the same request
    with and without it.  For the upload of the file report.pdf, with
    neither json nor data, the body stays empty and no Content-Type is set,
    so there is no multipart body and no boundary. *)
Theorem prepare_body_ignores_files :
  (forall (data : option body_data) (files : option files_dict)
          (json : option string) (r : prepared_request.t),
     prepared_request.prepare_body data files json r
     = prepared_request.prepare_body data None json r)
  /\ (let file := UploadFile "document" "report.pdf"
                    ["%"%byte; "P"%byte; "D"%byte; "F"%byte]
                    (Some "application/pdf") None in
      let r := prepared_request.prepare_body None (Some [file]) None
                 prepared_request.fresh in
      prepared_request.body r = []
      /\ case_insensitive_dict.get "Content-Type" (prepared_request.headers r) = None
      /\ ~ (exists ct,
              case_insensitive_dict.get "Content-Type" (prepared_request.headers r)
              = Some ct
              /\ starts_with "multipart/form-data" ct = true)).
Proof.
  split; [reflexivity |].
  cbv zeta. repeat split.
  intros (ct & Hct & _). discriminate Hct.
Qed.

(** C3: the code does not do what the claim (and the comment on the
    handler) says.  Applying the Basic handler returns the request as it
    was, for every user name and password; the request prepared for
    https://httpbin.org/basic-auth/user/passwd with the credentials
    user / passwd carries no Authorization header. *)
Theorem basic_auth_sets_no_header :
  (forall (username password : string) (r : prepared_request.t),
     prepared_request.prepare_auth (http_basic_auth username password) r
     = Returned r)
  /\ (exists r,
        prepared_request.prepare "GET"
          "https://httpbin.org/basic-auth/user/passwd" None None None None
          (Some (Some (http_basic_auth "user" "passwd"))) None None None
          prepared_request.fresh = Returned r
        /\ case_insensitive_dict.get "Authorization" (prepared_request.headers r)
           = None).
Proof.
  split.
  - reflexivity.
  - eexists. split; reflexivity.
Qed.

(** ** Sessions *)

(** C10.  [head], as a session method and as a top-level function, calls
    [request] with the method HEAD, the URL it was given and options in
    which allow_redirects is false, whatever value the caller supplied,
    and in which every other field is the caller's.  The options of the
    call are the same whatever [request] does with them. *)
Theorem head_forces_allow_redirects_false (url : string) (opts : request_options) :
  exists opts',
    (forall (R : Type)
            (request : string -> string -> request_options -> session.t -> R)
            (s : session.t) (v : bool),
       session.head request url opts s = request "HEAD" url opts' s
       /\ session.head request url (set_allow_redirects v opts) s
          = request "HEAD" url opts' s)
    /\ (forall (R : Type) (request : string -> string -> request_options -> R)
               (v : bool),
          head request url opts = request "HEAD" url opts'
          /\ head request url (set_allow_redirects v opts)
             = request "HEAD" url opts')
    /\ (forall s, session.head session.request url opts s
                  = session.request "HEAD" url opts' s)
    /\ head request url opts = request "HEAD" url opts'
    /\ opt_allow_redirects opts' = Some false
    /\ opt_params opts' = opt_params opts
    /\ opt_data opts' = opt_data opts
    /\ opt_json opts' = opt_json opts
    /\ opt_headers opts' = opt_headers opts
    /\ opt_cookies opts' = opt_cookies opts
    /\ opt_files opts' = opt_files opts
    /\ opt_auth opts' = opt_auth opts
    /\ opt_timeout_cfg opts' = opt_timeout_cfg opts
    /\ opt_proxies opts' = opt_proxies opts
    /\ opt_hooks_cfg opts' = opt_hooks_cfg opts
    /\ opt_stream opts' = opt_stream opts
    /\ opt_verify opts' = opt_verify opts
    /\ opt_cert opts' = opt_cert opts.
Proof.
  exists (set_allow_redirects false opts).
  split; [intros R callee s v; split; reflexivity |].
  split; [intros R callee v; split; reflexivity |].
  repeat split.
Qed.

Lemma prefix_inv (a b : string) :
  String.prefix a b = true -> exists t, b = a +:+ t.
Proof.
  revert b. induction a as [| x a IH]; intros b H.
  - now exists b.
  - destruct b as [| y b]; [discriminate H |].
    simpl in H. destruct (ascii_dec x y) as [<- |]; [| discriminate H].
    destruct (IH b H) as [t ->]. now exists t.
Qed.

Lemma starts_with_trans (a b c : string) :
  starts_with a b = true -> starts_with b c = true -> starts_with a c = true.
Proof.
  unfold starts_with. intros Hab Hbc.
  destruct (prefix_inv _ _ Hab) as [t ->].
  destruct (prefix_inv _ _ Hbc) as [u ->].
  rewrite append_assoc. apply prefix_append.
Qed.

Lemma session_replaying_adapters (limit : Z) (chain : list response.t) :
  session.adapters_ (session_replaying limit chain)
  = [("http://", Some (AdapterPtr (ReplayAdapter chain [])));
     ("https://", Some (AdapterPtr default_http_adapter))].
Proof. reflexivity. Qed.

(** A request sent through a replaying session to an http:// URL makes the
    adapter serve the first response of the chain, and [send] is left
    suspended at its [co_await]; the rest of the chain stays with the
    adapter. *)
Lemma session_send_replaying (limit : Z) (first : response.t)
    (rest : list response.t) (prepped : prepared_request.t)
    (opts : request_options) :
  starts_with "http://" (prepared_request.url prepped) = true ->
  exists s',
    session.send prepped opts (session_replaying limit (first :: rest))
    = (suspended_at_co_await, s')
    /\ is_replaying "http://" rest s'
    /\ session.max_redirects s' = limit.
Proof.
  intros Hurl.
  unfold session.send, session.get_adapter, session.after_get_adapter.
  rewrite session_replaying_adapters.
  cbn [session.first_prefix]. rewrite Hurl.
  eexists. split; [reflexivity |]. split.
  - exists [prepped]. reflexivity.
  - reflexivity.
Qed.

Lemma session_request_replaying (limit : Z) (first : response.t)
    (rest : list response.t) (method url : string) (opts : request_options) :
  library_auth (opt_auth opts) ->
  starts_with "http://" url = true ->
  exists s',
    session.request method url opts (session_replaying limit (first :: rest))
    = (suspended_at_co_await, s')
    /\ is_replaying "http://" rest s'
    /\ session.max_redirects s' = limit.
Proof.
  intros Hlib Hurl.
  unfold session.request, session.prepare_request, request.prepare.
  match goal with
  | |- context [prepared_request.prepare ?m ?u ?h ?f ?d ?p ?a ?c ?k ?j ?r0] =>
      destruct (prepare_library_auth m u h f d p a c k j r0) as (r & -> & _ & Hu)
  end.
  - cbn. intros call. destruct (opt_auth opts) as [[a |] |] eqn:E; cbn;
      try discriminate.
    intros [= ->]. now apply (Hlib call).
  - destruct (session_send_replaying limit first rest r opts) as (s' & -> & Hs').
    + rewrite Hu. apply (starts_with_trans _ url); [exact Hurl |].
      apply prepare_url_keeps_url.
    + now exists s'.
Qed.

Example awaiting_http_adapter_send_delivers_200 :
  exists r,
    delivered (run_to_end
                 (http_adapter_send
                    (prepared_request.with_url "https://example.com/"
                       prepared_request.fresh)
                    false None (verify_bool true) None None
                    default_http_adapter).1) = Returned r
    /\ response.status_code r = 200
    /\ response.reason r = "OK"
    /\ response.url r = "https://example.com/".
Proof. eexists. repeat split. Qed.

(** C1: the code does not do what the claim (and the comments on
    [redirect_stati] and [max_redirects]) says.  A session request makes
    one exchange with the adapter and follows no redirect.  Against a
    server that answers with N consecutive 302 responses and then with 200,
    and for every value of max_redirects, the first resumption of the
    request stops at its [co_await] after the adapter has served the first
    response of the chain; the response delivered is a default-constructed
    one, with status 0 and an empty history, and no TooManyRedirects is
    raised.  This is not what the specification asks, for any N and any
    limit; with N = 1 and the limit 30 it asks for status 200 and a history
    of length 1. *)
Theorem session_request_follows_no_redirect (limit : Z) (n : nat) :
  let last := response_with 200 "OK" None in
  let first_run :=
    session.request "GET" "http://example.com/" no_options
      (session_replaying limit (redirect_chain n last)) in
  first_run.1 = suspended_at_co_await
  /\ delivered first_run.1 = Returned response.fresh
  /\ response.status_code response.fresh = 0
  /\ response.history response.fresh = []
  /\ is_replaying "http://" (tl (redirect_chain n last)) first_run.2
  /\ session.max_redirects first_run.2 = limit
  /\ ~ spec_redirect_result limit n last (delivered first_run.1).
Proof.
  cbv zeta.
  assert (Hchain : exists first rest,
             redirect_chain n (response_with 200 "OK" None) = first :: rest).
  { unfold redirect_chain. destruct n as [| n]; cbn; eauto. }
  destruct Hchain as (first & rest & ->).
  destruct (session_request_replaying limit first rest "GET"
              "http://example.com/" no_options) as (s' & -> & Hleft & Hmax).
  - intros call H. discriminate H.
  - reflexivity.
  - cbn [fst snd tl]. repeat split; try assumption.
    unfold spec_redirect_result.
    destruct (Z.of_nat n <? limit).
    + intros (r & Hr & _ & Hstatus). injection Hr as <-. discriminate Hstatus.
    + intros (msg & Hmsg). discriminate Hmsg.
Qed.

(** ** Response status *)




(* ===================================================================== *)
(** * Further properties of the code *)
(* ===================================================================== *)

(** ** The header store *)

Lemma tolower_other (a : ascii) :
  ~ (65 <= N_of_ascii a <= 90)%N -> tolower a = a.
Proof.
  intros H. unfold tolower.
  destruct (65 <=? N_of_ascii a)%N eqn:Hlo; [| reflexivity].
  destruct (N_of_ascii a <=? 90)%N eqn:Hhi; [| reflexivity].
  apply N.leb_le in Hlo. apply N.leb_le in Hhi. lia.
Qed.

Lemma tolower_same_variant (a b : ascii) :
  tolower a = tolower b -> char_case_variant a b.
Proof.
  intros H.
  destruct (decide (65 <= N_of_ascii a <= 90)%N) as [Ha | Ha];
    destruct (decide (65 <= N_of_ascii b <= 90)%N) as [Hb | Hb].
  - rewrite (tolower_upper_letter a Ha), (tolower_upper_letter b Hb) in H.
    apply (f_equal N_of_ascii) in H.
    rewrite !N_ascii_embedding in H by lia.
    left. rewrite <- (ascii_N_embedding a), <- (ascii_N_embedding b).
    f_equal. lia.
  - rewrite (tolower_upper_letter a Ha), (tolower_other b Hb) in H.
    right. left. split; [exact Ha |].
    rewrite <- H. apply N_ascii_embedding. lia.
  - rewrite (tolower_other a Ha), (tolower_upper_letter b Hb) in H.
    right. right. split; [exact Hb |].
    rewrite H. apply N_ascii_embedding. lia.
  - rewrite (tolower_other a Ha), (tolower_other b Hb) in H. now left.
Qed.

Lemma to_lower_same_variant (s t : string) :
  case_insensitive_dict.to_lower s = case_insensitive_dict.to_lower t ->
  case_variant s t.
Proof.
  revert t. induction s as [| a s IH]; intros [| b t] H;
    try discriminate H.
  - constructor.
  - injection H as Hc Hs. constructor.
    + now apply tolower_same_variant.
    + now apply IH.
Qed.

(** Two keys name the same entry exactly when they are equal up to the
    case of their letters. *)
Lemma same_entry_iff_case_variant (s t : string) :
  case_insensitive_dict.to_lower s = case_insensitive_dict.to_lower t
  <-> case_variant s t.
Proof.
  split; [apply to_lower_same_variant | apply to_lower_case_variant].
Qed.

Lemma dict_contains_get (k : string) (d : case_insensitive_dict.t) :
  case_insensitive_dict.contains k d = true
  <-> exists v, case_insensitive_dict.get k d = Some v.
Proof.
  unfold case_insensitive_dict.contains, case_insensitive_dict.get.
  rewrite bool_decide_eq_true.
  destruct (d !! case_insensitive_dict.to_lower k) as [p |].
  - split; [intros _; now exists p.2 | intros _; now exists p].
  - split; [intros [p Hp]; discriminate Hp | intros [v Hv]; discriminate Hv].
Qed.

(** [erase] finds an entry under every spelling of its key: after a value
    was stored under [k], erasing any case variant [k'] reports an erased
    entry, and the value can no longer be read under [k], [k'] or any other
    spelling; if the key was not in the store before, the store is back to
    what it was. *)
Theorem dict_erase_any_spelling (d : case_insensitive_dict.t)
    (k k' k'' v : string) :
  case_variant k k' ->
  case_variant k k'' ->
  let after := case_insensitive_dict.erase k'
                 (case_insensitive_dict.set k v d) in
  after.1 = true
  /\ case_insensitive_dict.get k'' after.2 = None
  /\ case_insensitive_dict.contains k'' after.2 = false
  /\ (case_insensitive_dict.contains k d = false -> after.2 = d).
Proof.
  intros Hk' Hk''. cbv zeta.
  apply to_lower_case_variant in Hk'. apply to_lower_case_variant in Hk''.
  unfold case_insensitive_dict.erase, case_insensitive_dict.set,
    case_insensitive_dict.get, case_insensitive_dict.contains.
  cbn [fst snd]. rewrite <- Hk', <- Hk''.
  rewrite lookup_insert_eq, lookup_delete_eq.
  split; [| split; [| split]].
  - apply bool_decide_eq_true. eauto.
  - reflexivity.
  - apply bool_decide_eq_false. intros [x Hx]. discriminate Hx.
  - intros Habs. apply bool_decide_eq_false in Habs.
    rewrite delete_insert_eq. apply delete_id.
    destruct (d !! case_insensitive_dict.to_lower k) eqn:E; [| reflexivity].
    destruct Habs. eauto.
Qed.

Lemma dict_erase_any_spelling_witness :
  case_insensitive_dict.get "content-type"
    (case_insensitive_dict.erase "Content-Type"
       (case_insensitive_dict.set "CONTENT-TYPE" "text/html" ∅)).2 = None.
Proof.
  refine (proj1 (proj2
    (dict_erase_any_spelling ∅ "CONTENT-TYPE" "Content-Type" "content-type"
       "text/html" _ _))); solve_case_variant.
Defined.

(** Erasing a key that is not in the store reports [false] and changes
    nothing. *)
Theorem dict_erase_absent (d : case_insensitive_dict.t) (k : string) :
  case_insensitive_dict.get k d = None ->
  case_insensitive_dict.erase k d = (false, d).
Proof.
  unfold case_insensitive_dict.get, case_insensitive_dict.erase.
  destruct (d !! case_insensitive_dict.to_lower k) eqn:E; [discriminate |].
  intros _. rewrite (delete_id _ _ E).
  replace (bool_decide (is_Some (@None (string * string)))) with false;
    [reflexivity |].
  symmetry. apply bool_decide_eq_false. intros [x Hx]. discriminate Hx.
Qed.

Lemma dict_erase_absent_witness :
  case_insensitive_dict.erase "Accept"
    (case_insensitive_dict.set "Host" "example.com" ∅)
  = (false, case_insensitive_dict.set "Host" "example.com" ∅).
Proof.
  apply (dict_erase_absent (case_insensitive_dict.set "Host" "example.com" ∅)
           "Accept").
  vm_compute. reflexivity.
Defined.

(** [set] touches one entry only: a key that is not a case variant of the
    key written reads as before. *)
Theorem dict_set_keeps_other_keys (d : case_insensitive_dict.t)
    (k k' v : string) :
  ~ case_variant k k' ->
  case_insensitive_dict.get k' (case_insensitive_dict.set k v d)
  = case_insensitive_dict.get k' d
  /\ case_insensitive_dict.contains k' (case_insensitive_dict.set k v d)
     = case_insensitive_dict.contains k' d.
Proof.
  intros Hne.
  assert (Hk : case_insensitive_dict.to_lower k
               <> case_insensitive_dict.to_lower k')
    by (intros E; now apply Hne, to_lower_same_variant).
  unfold case_insensitive_dict.get, case_insensitive_dict.contains,
    case_insensitive_dict.set.
  now rewrite lookup_insert_ne.
Qed.

Lemma dict_set_keeps_other_keys_witness :
  case_insensitive_dict.get "Accept"
    (case_insensitive_dict.set "Host" "example.com"
       (case_insensitive_dict.set "accept" "*/*" ∅))
  = case_insensitive_dict.get "Accept"
      (case_insensitive_dict.set "accept" "*/*" ∅).
Proof.
  refine (proj1 (dict_set_keeps_other_keys
                   (case_insensitive_dict.set "accept" "*/*" ∅)
                   "Host" "Accept" "example.com" _)).
  intros H. apply to_lower_case_variant in H. vm_compute in H. discriminate H.
Defined.

(** The store holds one entry per key up to case: writing a key again under
    another spelling does not add an entry, writing a key that is not in
    the store adds exactly one. *)
Theorem dict_size_counts_folded_keys (d : case_insensitive_dict.t)
    (k k' v v' : string) :
  case_variant k k' ->
  case_insensitive_dict.size
    (case_insensitive_dict.set k' v' (case_insensitive_dict.set k v d))
  = case_insensitive_dict.size (case_insensitive_dict.set k v d)
  /\ (case_insensitive_dict.contains k d = false ->
      case_insensitive_dict.size (case_insensitive_dict.set k v d)
      = S (case_insensitive_dict.size d))
  /\ (case_insensitive_dict.contains k d = true ->
      case_insensitive_dict.size (case_insensitive_dict.set k v d)
      = case_insensitive_dict.size d).
Proof.
  intros Hk. apply to_lower_case_variant in Hk.
  unfold case_insensitive_dict.size, case_insensitive_dict.set,
    case_insensitive_dict.contains.
  rewrite <- Hk, insert_insert_eq.
  split; [| split].
  - now rewrite !map_size_insert.
  - intros Habs. apply bool_decide_eq_false in Habs.
    apply map_size_insert_None.
    destruct (d !! case_insensitive_dict.to_lower k) eqn:E; [| reflexivity].
    destruct Habs. eauto.
  - intros Hin. apply bool_decide_eq_true in Hin.
    now apply map_size_insert_Some.
Qed.

Lemma dict_size_counts_folded_keys_witness :
  case_insensitive_dict.size
    (case_insensitive_dict.set "content-type" "text/html"
       (case_insensitive_dict.set "Content-Type" "application/json" ∅))
  = case_insensitive_dict.size
      (case_insensitive_dict.set "Content-Type" "application/json" ∅).
Proof.
  refine (proj1 (dict_size_counts_folded_keys ∅ "Content-Type" "content-type"
                   "application/json" "text/html" _)).
  solve_case_variant.
Defined.

(** ** The cookie jar *)

Lemma cookie_get_app (n : string) (dom pth : option string)
    (j1 j2 : cookie_jar.t) :
  cookie_jar.get n dom pth (j1 ++ j2)
  = match cookie_jar.get n dom pth j1 with
    | Some v => Some v
    | None => cookie_jar.get n dom pth j2
    end.
Proof.
  induction j1 as [| c j1 IH]; [reflexivity |].
  rewrite <- app_comm_cons, !cookie_get_step.
  now destruct (_ && _ && _).
Qed.

Lemma cookie_get_no_name (n : string) (dom pth : option string)
    (j : cookie_jar.t) :
  n ∉ cookie_names j -> cookie_jar.get n dom pth j = None.
Proof.
  induction j as [| c j IH]; [reflexivity |].
  cbn [cookie_names map]. rewrite not_elem_of_cons. intros [Hc Hj].
  rewrite cookie_get_step.
  replace (String.eqb (name c) n) with false; [now apply IH |].
  symmetry. apply String.eqb_neq. congruence.
Qed.

Lemma set_existing_None (n v : string) (j : cookie_jar.t) :
  cookie_jar.set_existing n v j = None <-> n ∉ cookie_names j.
Proof.
  induction j as [| c j IH]; cbn [cookie_jar.set_existing cookie_names map].
  - split; [intros _; apply not_elem_of_nil | reflexivity].
  - rewrite not_elem_of_cons.
    destruct (String.eqb_spec (name c) n) as [E | E].
    + split; [discriminate | intros [Hc _]; congruence].
    + destruct (cookie_jar.set_existing n v j).
      * split; [discriminate |]. intros [_ Hj]. now apply IH in Hj.
      * split; [| reflexivity]. intros _. split; [congruence | now apply IH].
Qed.

Lemma set_existing_Some (n v : string) (j j' : cookie_jar.t) :
  cookie_jar.set_existing n v j = Some j' ->
  cookie_names j' = cookie_names j
  /\ cookie_jar.get n None None j' = Some v
  /\ (forall m dom pth, m <> n ->
        cookie_jar.get m dom pth j' = cookie_jar.get m dom pth j).
Proof.
  revert j'. induction j as [| c j IH]; intros j' H;
    cbn [cookie_jar.set_existing] in H; [discriminate H |].
  destruct (String.eqb_spec (name c) n) as [E | E].
  - injection H as <-. repeat split.
    + rewrite cookie_get_step. cbn. now rewrite E, String.eqb_refl.
    + intros m dom pth Hm. rewrite !cookie_get_step. cbn.
      replace (String.eqb (name c) m) with false; [reflexivity |].
      symmetry. apply String.eqb_neq. congruence.
  - destruct (cookie_jar.set_existing n v j) as [r |]; [| discriminate H].
    injection H as <-. destruct (IH r eq_refl) as (Hn & Hg & Ho).
    repeat split.
    + cbn [cookie_names map]. f_equal. exact Hn.
    + rewrite cookie_get_step.
      replace (String.eqb (name c) n) with false; [exact Hg |].
      symmetry. now apply String.eqb_neq.
    + intros m dom pth Hm. rewrite !cookie_get_step.
      now rewrite (Ho m dom pth Hm).
Qed.

Lemma erase_names (n : string) (j : cookie_jar.t) :
  cookie_names (cookie_jar.erase n j).2
  = List.filter (fun m => negb (String.eqb m n)) (cookie_names j).
Proof.
  cbn [cookie_jar.erase snd]. induction j as [| c j IH]; [reflexivity |].
  cbn [List.filter cookie_names map].
  destruct (String.eqb (name c) n); cbn [negb];
    [exact IH | cbn [cookie_names map]; f_equal; exact IH].
Qed.

Lemma erase_other (n m : string) (dom pth : option string) (j : cookie_jar.t) :
  m <> n ->
  cookie_jar.get m dom pth (cookie_jar.erase n j).2 = cookie_jar.get m dom pth j.
Proof.
  intros Hm. cbn [cookie_jar.erase snd].
  induction j as [| c j IH]; [reflexivity |].
  cbn [List.filter]. destruct (String.eqb_spec (name c) n) as [E | E]; cbn [negb].
  - rewrite IH, cookie_get_step.
    replace (String.eqb (name c) m) with false; [reflexivity |].
    symmetry. apply String.eqb_neq. congruence.
  - rewrite !cookie_get_step. now rewrite IH.
Qed.

Lemma set_get_same (n v : string) (j : cookie_jar.t) :
  cookie_jar.get n None None (cookie_jar.set n (Some v) j) = Some v.
Proof.
  unfold cookie_jar.set.
  destruct (cookie_jar.set_existing n v j) as [j' |] eqn:E.
  - now apply set_existing_Some in E.
  - apply set_existing_None in E.
    rewrite cookie_get_app, (cookie_get_no_name _ _ _ _ E).
    rewrite cookie_get_step. cbn. now rewrite String.eqb_refl.
Qed.

(** What [set] stores under a name is what [get] reads back by that name.
    The jar grows by one cookie when the name is new and keeps its size
    when a cookie of that name was there. *)
Theorem cookie_set_then_get (n v : string) (j : cookie_jar.t) :
  cookie_jar.get n None None (cookie_jar.set n (Some v) j) = Some v
  /\ cookie_jar.size (cookie_jar.set n (Some v) j)
     = if bool_decide (n ∈ cookie_names j) then cookie_jar.size j
       else S (cookie_jar.size j).
Proof.
  split; [apply set_get_same |].
  unfold cookie_jar.set, cookie_jar.size.
  destruct (cookie_jar.set_existing n v j) as [j' |] eqn:E.
  - assert (Hin : n ∈ cookie_names j).
    { destruct (decide (n ∈ cookie_names j)) as [H | H]; [exact H |].
      apply set_existing_None with (v := v) in H. congruence. }
    rewrite (bool_decide_eq_true_2 _ Hin).
    apply set_existing_Some in E. destruct E as (Hnames & _).
    apply (f_equal (@length string)) in Hnames.
    unfold cookie_names in Hnames. now rewrite !length_map in Hnames.
  - apply set_existing_None in E. rewrite (bool_decide_eq_false_2 _ E).
    rewrite length_app. cbn. lia.
Qed.

(** [set] with no value removes every cookie of that name: no read by that
    name finds anything afterwards, whatever the filters; the flag of
    [erase] tells whether the name was in the jar, and a jar that does not
    hold the name is left as it is. *)
Theorem cookie_set_none_erases (n : string) (dom pth : option string)
    (j : cookie_jar.t) :
  cookie_jar.get n dom pth (cookie_jar.set n None j) = None
  /\ (n ∉ cookie_names (cookie_jar.set n None j))
  /\ fst (cookie_jar.erase n j) = bool_decide (n ∈ cookie_names j)
  /\ (n ∉ cookie_names j -> cookie_jar.set n None j = j).
Proof.
  assert (Hnot : n ∉ cookie_names (cookie_jar.set n None j)).
  { unfold cookie_jar.set. rewrite erase_names, list_elem_of_In, filter_In.
    intros [_ H]. now rewrite String.eqb_refl in H. }
  split; [now apply cookie_get_no_name |]. split; [exact Hnot |].
  clear Hnot. split.
  - cbn [cookie_jar.erase fst]. induction j as [| c j IH]; [reflexivity |].
    cbn [existsb cookie_names map]. rewrite IH.
    destruct (String.eqb_spec (name c) n) as [E | E]; cbn [orb].
    + symmetry. apply bool_decide_eq_true. rewrite E. left.
    + apply bool_decide_ext. rewrite elem_of_cons. intuition congruence.
  - unfold cookie_jar.set. cbn [cookie_jar.erase snd].
    induction j as [| c j IH]; [reflexivity |].
    cbn [cookie_names map]. rewrite not_elem_of_cons. intros [Hc Hj].
    cbn [List.filter].
    replace (String.eqb (name c) n) with false;
      [cbn [negb]; f_equal; now apply IH |].
    symmetry. apply String.eqb_neq. congruence.
Qed.

Lemma cookie_set_none_erases_witness :
  cookie_jar.set "token" None [cookie_of_name_value "session" "abc"]
  = [cookie_of_name_value "session" "abc"].
Proof.
  refine (proj2 (proj2 (proj2
    (cookie_set_none_erases "token" None None
       [cookie_of_name_value "session" "abc"]))) _).
  cbn. intros H. apply list_elem_of_singleton in H. discriminate H.
Defined.

Lemma set_get_other (n m : string) (v : option string)
    (dom pth : option string) (j : cookie_jar.t) :
  m <> n ->
  cookie_jar.get m dom pth (cookie_jar.set n v j) = cookie_jar.get m dom pth j.
Proof.
  intros Hm. unfold cookie_jar.set. destruct v as [x |].
  - destruct (cookie_jar.set_existing n x j) as [j' |] eqn:E.
    + apply set_existing_Some in E. now apply E.
    + rewrite cookie_get_app. destruct (cookie_jar.get m dom pth j); [reflexivity |].
      rewrite cookie_get_step. cbn.
      replace (String.eqb n m) with false; [reflexivity |].
      symmetry. apply String.eqb_neq. congruence.
  - now apply erase_other.
Qed.

(** [set] touches the cookies of one name only: reads by any other name,
    with any filters, give what they gave before, and the other names in
    the jar are the same. *)
Theorem cookie_set_keeps_other_names (n m : string) (v : option string)
    (dom pth : option string) (j : cookie_jar.t) :
  m <> n ->
  cookie_jar.get m dom pth (cookie_jar.set n v j) = cookie_jar.get m dom pth j
  /\ (m ∈ cookie_names (cookie_jar.set n v j) <-> m ∈ cookie_names j).
Proof.
  intros Hm. split; [now apply set_get_other |].
  unfold cookie_jar.set. destruct v as [x |].
  - destruct (cookie_jar.set_existing n x j) as [j' |] eqn:E.
    + apply set_existing_Some in E. destruct E as (-> & _). reflexivity.
    + unfold cookie_names. rewrite map_app, elem_of_app. cbn [map].
      rewrite list_elem_of_singleton. intuition congruence.
  - rewrite erase_names, !list_elem_of_In, filter_In.
    split; [now intros [H _] | intros H; split; [exact H |]].
    apply negb_true_iff, String.eqb_neq, Hm.
Qed.

Lemma cookie_set_keeps_other_names_witness :
  cookie_jar.get "token" None None
    (cookie_jar.set "session" (Some "abc")
       [cookie_of_name_value "token" "xyz"])
  = cookie_jar.get "token" None None [cookie_of_name_value "token" "xyz"].
Proof.
  refine (proj1 (cookie_set_keeps_other_names "session" "token" (Some "abc")
                   None None [cookie_of_name_value "token" "xyz"] _)).
  discriminate.
Defined.

Lemma set_names_unique (n : string) (v : option string) (j : cookie_jar.t) :
  NoDup (cookie_names j) -> NoDup (cookie_names (cookie_jar.set n v j)).
Proof.
  intros Hnd. unfold cookie_jar.set. destruct v as [x |].
  - destruct (cookie_jar.set_existing n x j) as [j' |] eqn:E.
    + apply set_existing_Some in E. destruct E as (-> & _). exact Hnd.
    + apply set_existing_None in E.
      unfold cookie_names. rewrite map_app. cbn [map].
      apply NoDup_app. split; [exact Hnd |]. split.
      * intros x' Hx' Hin. apply list_elem_of_singleton in Hin. now subst x'.
      * apply NoDup_singleton.
  - rewrite erase_names. apply NoDup_ListNoDup, List.NoDup_filter.
    now apply NoDup_ListNoDup.
Qed.

Lemma update_names_unique (other : list (string * string)) (j : cookie_jar.t) :
  NoDup (cookie_names j) -> NoDup (cookie_names (cookie_jar.update other j)).
Proof.
  unfold cookie_jar.update. revert j.
  induction other as [| kv other IH]; intros j Hnd; [exact Hnd |].
  cbn [fold_left]. apply IH. now apply set_names_unique.
Qed.

(** Names stay unique under [set] and [update]: a jar in which no two
    cookies have the same name is still one after any [set] (with or
    without a value) and any [update]. *)
Theorem cookie_set_keeps_names_unique (n : string) (v : option string)
    (other : list (string * string)) (j : cookie_jar.t) :
  NoDup (cookie_names j) ->
  NoDup (cookie_names (cookie_jar.set n v j))
  /\ NoDup (cookie_names (cookie_jar.update other j)).
Proof.
  intros Hnd. split; [now apply set_names_unique | now apply update_names_unique].
Qed.

Lemma cookie_set_keeps_names_unique_witness :
  NoDup (cookie_names
           (cookie_jar.set "a" (Some "2") [cookie_of_name_value "a" "1"])).
Proof.
  refine (proj1 (cookie_set_keeps_names_unique "a" (Some "2") []
                   [cookie_of_name_value "a" "1"] _)).
  apply NoDup_singleton.
Defined.

(** A jar made by [cookiejar_from_dict] never holds two cookies of the
    same name, whatever the entries it is made from. *)
Theorem cookiejar_from_dict_names_unique (cookie_dict : list (string * string)) :
  NoDup (cookie_names (cookiejar_from_dict cookie_dict)).
Proof.
  apply (update_names_unique cookie_dict []). apply NoDup_nil_2.
Qed.

Lemma get_dict_into_lookup (n : string) (dom pth : option string)
    (j : cookie_jar.t) (acc : gmap string string) :
  cookie_jar.get_dict_into dom pth j acc !! n
  = match cookie_jar.get n dom pth (rev j) with
    | Some v => Some v
    | None => acc !! n
    end.
Proof.
  revert acc. induction j as [| c j IH]; intros acc; [reflexivity |].
  cbn [rev cookie_jar.get_dict_into]. rewrite cookie_get_app, cookie_get_step.
  cbn [cookie_jar.get].
  destruct (cookie_jar.filter_ok dom (domain c)) eqn:Hd; cbn [negb andb].
  - destruct (cookie_jar.filter_ok pth (path c)) eqn:Hp; cbn [negb andb].
    + rewrite IH. destruct (cookie_jar.get n dom pth (rev j)); [reflexivity |].
      destruct (String.eqb_spec (name c) n) as [E | E]; cbn [andb].
      * rewrite E. apply lookup_insert_eq.
      * now apply lookup_insert_ne.
    + rewrite IH, andb_false_r. now destruct (cookie_jar.get n dom pth (rev j)).
  - rewrite IH, andb_false_r. now destruct (cookie_jar.get n dom pth (rev j)).
Qed.

Lemma cookie_get_unique (n : string) (dom pth : option string)
    (j : cookie_jar.t) (c : cookie) :
  NoDup (cookie_names j) -> c ∈ j -> name c = n ->
  cookie_jar.get n dom pth j
  = if cookie_jar.filter_ok dom (domain c) && cookie_jar.filter_ok pth (path c)
    then Some (value c) else None.
Proof.
  intros Hnd Hin Hn. induction j as [| c0 j IH]; [now apply elem_of_nil in Hin |].
  cbn [cookie_names map] in Hnd. apply NoDup_cons in Hnd as [Hc0 Hnd].
  rewrite cookie_get_step. apply elem_of_cons in Hin as [<- | Hin].
  - rewrite Hn, String.eqb_refl. cbn [andb].
    destruct (_ && _); [reflexivity |].
    apply cookie_get_no_name. now rewrite <- Hn.
  - replace (String.eqb (name c0) n) with false; [now apply IH |].
    symmetry. apply String.eqb_neq. intros E. apply Hc0. rewrite E, <- Hn.
    apply list_elem_of_In, in_map, list_elem_of_In, Hin.
Qed.

Lemma cookie_get_rev_unique (n : string) (dom pth : option string)
    (j : cookie_jar.t) :
  NoDup (cookie_names j) ->
  cookie_jar.get n dom pth (rev j) = cookie_jar.get n dom pth j.
Proof.
  intros Hnd.
  assert (Hrev : NoDup (cookie_names (rev j))).
  { unfold cookie_names. rewrite map_rev. apply NoDup_ListNoDup, NoDup_rev.
    now apply NoDup_ListNoDup. }
  destruct (decide (n ∈ cookie_names j)) as [Hin | Hout].
  - apply list_elem_of_In, in_map_iff in Hin. destruct Hin as (c & Hc & Hin).
    rewrite (cookie_get_unique n dom pth j c Hnd) by
      (try apply list_elem_of_In; assumption).
    apply cookie_get_unique; try assumption.
    apply list_elem_of_In, in_rev. now rewrite rev_involutive.
  - rewrite (cookie_get_no_name n dom pth j Hout).
    apply cookie_get_no_name. unfold cookie_names.
    rewrite map_rev, list_elem_of_In, <- in_rev, <- list_elem_of_In. exact Hout.
Qed.

(** [get_dict] and [get] resolve a repeated name in opposite ways: the
    entry of [get_dict] for a name is the value of the last cookie that
    passes the filters, where [get] returns the first; reading the reversed
    jar with [get] gives the entry of [get_dict]. *)
Theorem get_dict_last_cookie_wins (n : string) (dom pth : option string)
    (j : cookie_jar.t) :
  cookie_jar.get_dict dom pth j !! n = cookie_jar.get n dom pth (rev j).
Proof.
  unfold cookie_jar.get_dict. rewrite get_dict_into_lookup.
  now destruct (cookie_jar.get n dom pth (rev j)).
Qed.

(** On a jar without repeated names [get_dict] and [get] agree, for every
    name and every pair of filters. *)
Theorem get_dict_agrees_with_get (n : string) (dom pth : option string)
    (j : cookie_jar.t) :
  NoDup (cookie_names j) ->
  cookie_jar.get_dict dom pth j !! n = cookie_jar.get n dom pth j.
Proof.
  intros Hnd. unfold cookie_jar.get_dict.
  rewrite get_dict_into_lookup, (cookie_get_rev_unique n dom pth j Hnd).
  now destruct (cookie_jar.get n dom pth j).
Qed.

Lemma get_dict_agrees_with_get_witness :
  cookie_jar.get_dict None (Some "/")
    [cookie_of_name_value "a" "1"; cookie_of_name_value "b" "2"] !! "b"
  = cookie_jar.get "b" None (Some "/")
      [cookie_of_name_value "a" "1"; cookie_of_name_value "b" "2"].
Proof.
  apply (get_dict_agrees_with_get "b" None (Some "/")
           [cookie_of_name_value "a" "1"; cookie_of_name_value "b" "2"]).
  cbn. apply NoDup_cons. split.
  - intros H. apply list_elem_of_singleton in H. discriminate H.
  - apply NoDup_singleton.
Defined.

Lemma cookiejar_from_dict_snoc (l : list (string * string)) (k v : string) :
  cookiejar_from_dict (l ++ [(k, v)])
  = cookie_jar.set k (Some v) (cookiejar_from_dict l).
Proof. unfold cookiejar_from_dict. now rewrite fold_left_app. Qed.

Lemma cookiejar_from_dict_get (n : string) (l : list (string * string)) :
  NoDup l.*1 ->
  cookie_jar.get n None None (cookiejar_from_dict l)
  = (list_to_map l : gmap string string) !! n.
Proof.
  induction l as [| [k v] l IH] using rev_ind; intros Hnd; [reflexivity |].
  rewrite fmap_app in Hnd. apply NoDup_app in Hnd as (Hl & Hk & _).
  assert (Hfresh : k ∉ l.*1).
  { intros Hin. apply (Hk k Hin). cbn. left. }
  rewrite cookiejar_from_dict_snoc, (list_to_map_snoc l k v Hfresh).
  destruct (decide (n = k)) as [-> | Hne].
  - now rewrite set_get_same, lookup_insert_eq.
  - rewrite set_get_other by exact Hne.
    rewrite lookup_insert_ne by congruence. now apply IH.
Qed.

(** A dictionary turned into a jar and back is the same dictionary:
    [dict_from_cookiejar] of [cookiejar_from_dict] of the entries of a map
    (its keys are distinct) is the map with these entries. *)
Theorem cookiejar_dict_round_trip (cookie_dict : list (string * string)) :
  NoDup cookie_dict.*1 ->
  utils.dict_from_cookiejar (cookiejar_from_dict cookie_dict)
  = list_to_map cookie_dict.
Proof.
  intros Hnd. apply map_eq. intros n.
  unfold utils.dict_from_cookiejar, cookie_jar.get_dict.
  rewrite get_dict_into_lookup, cookie_get_rev_unique.
  - rewrite (cookiejar_from_dict_get n cookie_dict Hnd).
    now destruct (list_to_map cookie_dict !! n).
  - apply (update_names_unique cookie_dict []). apply NoDup_nil_2.
Qed.

Lemma cookiejar_dict_round_trip_witness :
  utils.dict_from_cookiejar (cookiejar_from_dict [("a", "1"); ("b", "2")])
  = list_to_map [("a", "1"); ("b", "2")].
Proof.
  apply (cookiejar_dict_round_trip [("a", "1"); ("b", "2")]).
  cbn. apply NoDup_cons. split.
  - intros H. apply list_elem_of_singleton in H. discriminate H.
  - apply NoDup_singleton.
Defined.

(** ** Hooks *)

(** [deregister_hook] does not look at the hook it is given: it removes
    the hook registered last.  After a registration it gives the registry
    back as it was, whichever hook is named; on an empty registry it
    reports [false] and changes nothing.  The same holds through the
    prepared request. *)
Theorem deregister_hook_pops_the_last (fn fn' : hook_fn) (h : hooks)
    (r : prepared_request.t) :
  hooks_deregister_hook fn' (hooks_register_hook fn h) = (true, h)
  /\ hooks_deregister_hook fn' default_hooks = (false, default_hooks)
  /\ prepared_request.deregister_hook fn' (prepared_request.register_hook fn r)
     = (true, r).
Proof.
  assert (Hpop : forall g, hooks_deregister_hook fn' (hooks_register_hook fn g)
                           = (true, g)).
  { intros [l]. unfold hooks_deregister_hook, hooks_register_hook.
    cbn [response_hooks]. destruct (l ++ [fn]) eqn:E.
    - now destruct l.
    - rewrite <- E, removelast_last. reflexivity. }
  split; [apply Hpop |]. split; [reflexivity |].
  unfold prepared_request.deregister_hook, prepared_request.register_hook.
  cbn [prepared_request.hooks_ prepared_request.with_hooks].
  rewrite Hpop. now destruct r.
Qed.

(** ** Request preparation, continued *)

(** [prepare_url] with parameters appends to the URL a separator, "&" when
    the URL already holds a "?" and "?" otherwise, and the parameters as
    key=value joined by "&", in key order; keys and values are copied as
    they are, nothing is percent-encoded. *)
Theorem prepare_url_renders_query (url : string) (p : string * string)
    (ps : list (string * string)) (r : prepared_request.t) :
  prepared_request.url (prepared_request.prepare_url url (Some (p :: ps)) r)
  = url +:+ (if has_char "?" url then "&" else "?")
        +:+ String.concat "&" (map render_param (p :: ps)).
Proof.
  unfold prepared_request.prepare_url, prepared_request.url.
  cbn [prepared_request.url_ prepared_request.with_url].
  destruct p as [k v]. cbn [prepared_request.append_params].
  rewrite append_params_rest. destruct ps as [| q qs].
  - change (String.concat "&" (map render_param [(k, v)]))
      with (k +:+ "=" +:+ v).
    now rewrite append_empty_r, !append_assoc.
  - change (String.concat "&" (map render_param ((k, v) :: q :: qs)))
      with ((k +:+ "=" +:+ v) +:+ "&"
            +:+ String.concat "&" (map render_param (q :: qs))).
    now rewrite !append_assoc.
Qed.

Lemma dict_get_set_other_fold (d : case_insensitive_dict.t) (k k' v : string) :
  case_insensitive_dict.to_lower k <> case_insensitive_dict.to_lower k' ->
  case_insensitive_dict.get k' (case_insensitive_dict.set k v d)
  = case_insensitive_dict.get k' d.
Proof.
  intros Hk. unfold case_insensitive_dict.get, case_insensitive_dict.set.
  now rewrite lookup_insert_ne.
Qed.

(** After body construction the Content-Length header is the decimal
    length of the body when the body is not empty.  When the body is empty
    the header is not touched: a Content-Length that the request carried
    before stays, also when it no longer fits. *)
Theorem prepare_body_content_length (data : option body_data)
    (files : option files_dict) (json : option string) (r : prepared_request.t) :
  let r' := prepared_request.prepare_body data files json r in
  (prepared_request.body r' <> [] ->
   case_insensitive_dict.get "Content-Length" (prepared_request.headers r')
   = Some (to_string_size (length (prepared_request.body r'))))
  /\ (prepared_request.body r' = [] ->
      case_insensitive_dict.get "Content-Length" (prepared_request.headers r')
      = case_insensitive_dict.get "Content-Length" (prepared_request.headers r)).
Proof.
  cbv zeta. unfold prepared_request.prepare_body.
  match goal with
  | |- context [prepared_request.prepare_content_length ?x] => set (r1 := x)
  end.
  assert (H1 : case_insensitive_dict.get "Content-Length"
                 (prepared_request.headers_ r1)
               = case_insensitive_dict.get "Content-Length"
                   (prepared_request.headers_ r)).
  { subst r1. destruct json as [s |]; [| now destruct data as [[s | b] |]].
    cbn [prepared_request.headers_ prepared_request.with_headers
         prepared_request.with_body].
    apply dict_get_set_other_fold. intros H. vm_compute in H. discriminate H. }
  unfold prepared_request.prepare_content_length, prepared_request.body,
    prepared_request.headers.
  destruct (prepared_request.body_ r1) as [| b bs] eqn:E.
  - rewrite E. split; [intros H; now destruct H | intros _; exact H1].
  - cbn [prepared_request.body_ prepared_request.headers_
         prepared_request.with_headers]. rewrite E.
    split; [| intros H; discriminate H].
    intros _. now apply dict_get_set_same_fold.
Qed.

Lemma prepare_body_content_length_witness :
  case_insensitive_dict.get "content-length"
    (prepared_request.headers
       (prepared_request.prepare_body (Some (data_string "body")) None None
          prepared_request.fresh))
  = Some "4".
Proof.
  refine (proj1 (prepare_body_content_length (Some (data_string "body")) None
                   None prepared_request.fresh) _).
  discriminate.
Defined.

Lemma prepare_library_result (method url : string)
    (headers : option case_insensitive_dict.t) (files : option files_dict)
    (data : option body_data) (params : option (list (string * string)))
    (auth : option (option (auth_base prepared_request.t)))
    (cookies : option cookie_jar.t) (hooks_cfg : option hooks)
    (json : option string) (r0 : prepared_request.t) :
  library_auth auth ->
  prepared_request.prepare method url headers files data params auth cookies
    hooks_cfg json r0
  = Returned
      (let r := prepared_request.prepare_method method r0 in
       let r := prepared_request.prepare_url url params r in
       let r := match headers with
                | Some h => prepared_request.prepare_headers h r
                | None => r
                end in
       let r := match cookies with
                | Some c => prepared_request.prepare_cookies c r
                | None => r
                end in
       let r := prepared_request.prepare_body data files json r in
       match hooks_cfg with
       | Some h => prepared_request.prepare_hooks h r
       | None => r
       end).
Proof.
  intros Hlib. unfold prepared_request.prepare. cbv zeta.
  destruct auth as [[[u p | u p | u p | call] |] |]; try reflexivity.
  now destruct (Hlib call).
Qed.

Lemma prepare_body_keeps_other_headers (data : option body_data)
    (files : option files_dict) (json : option string)
    (r : prepared_request.t) (k : string) :
  ~ case_variant k "Content-Type" ->
  ~ case_variant k "Content-Length" ->
  case_insensitive_dict.get k
    (prepared_request.headers_ (prepared_request.prepare_body data files json r))
  = case_insensitive_dict.get k (prepared_request.headers_ r).
Proof.
  intros Hct Hcl.
  assert (Hct' : case_insensitive_dict.to_lower "Content-Type"
                 <> case_insensitive_dict.to_lower k)
    by (intros E; apply Hct, to_lower_same_variant; congruence).
  assert (Hcl' : case_insensitive_dict.to_lower "Content-Length"
                 <> case_insensitive_dict.to_lower k)
    by (intros E; apply Hcl, to_lower_same_variant; congruence).
  unfold prepared_request.prepare_body.
  match goal with
  | |- context [prepared_request.prepare_content_length ?x] => set (r1 := x)
  end.
  assert (H1 : case_insensitive_dict.get k (prepared_request.headers_ r1)
               = case_insensitive_dict.get k (prepared_request.headers_ r)).
  { subst r1. destruct json as [s |]; [| now destruct data as [[s | b] |]].
    cbn [prepared_request.headers_ prepared_request.with_headers
         prepared_request.with_body].
    now apply dict_get_set_other_fold. }
  unfold prepared_request.prepare_content_length.
  destruct (prepared_request.body_ r1); [exact H1 |].
  cbn [prepared_request.headers_ prepared_request.with_headers].
  now rewrite dict_get_set_other_fold.
Qed.

Lemma prepare_body_keeps_cookies (data : option body_data)
    (files : option files_dict) (json : option string) (r : prepared_request.t) :
  prepared_request.cookies_ (prepared_request.prepare_body data files json r)
  = prepared_request.cookies_ r.
Proof.
  unfold prepared_request.prepare_body, prepared_request.prepare_content_length.
  destruct json as [sj |]; [| destruct data as [[sd | bd] |]]; cbn;
    repeat match goal with
           | |- context [match ?x with _ => _ end] => destruct x; cbn
           end; reflexivity.
Qed.

(** Preparation hands the caller's headers on: every header other than
    Content-Type and Content-Length reads in the prepared request as in the
    headers given to [prepare].  In particular the jar given to [prepare]
    is stored with the request and no Cookie header is rendered from it. *)
Theorem prepare_keeps_caller_headers (method url k : string)
    (h : case_insensitive_dict.t) (files : option files_dict)
    (data : option body_data) (params : option (list (string * string)))
    (auth : option (option (auth_base prepared_request.t)))
    (jar : cookie_jar.t) (hooks_cfg : option hooks)
    (json : option string) (r0 : prepared_request.t) :
  library_auth auth ->
  ~ case_variant k "Content-Type" ->
  ~ case_variant k "Content-Length" ->
  exists r,
    prepared_request.prepare method url (Some h) files data params auth
      (Some jar) hooks_cfg json r0 = Returned r
    /\ case_insensitive_dict.get k (prepared_request.headers r)
       = case_insensitive_dict.get k h
    /\ prepared_request.cookies_ r = jar.
Proof.
  intros Hlib Hct Hcl.
  rewrite (prepare_library_result _ _ _ _ _ _ _ _ _ _ _ Hlib). cbv zeta.
  eexists. split; [reflexivity |]. unfold prepared_request.headers. split.
  - destruct hooks_cfg;
      cbn [prepared_request.prepare_hooks prepared_request.with_hooks
           prepared_request.headers_];
      now rewrite prepare_body_keeps_other_headers.
  - destruct hooks_cfg;
      cbn [prepared_request.prepare_hooks prepared_request.with_hooks
           prepared_request.cookies_];
      now rewrite prepare_body_keeps_cookies.
Qed.

Lemma prepare_keeps_caller_headers_witness :
  exists r,
    prepared_request.prepare "GET" "http://example.com/" (Some ∅) None None
      None None (Some [cookie_of_name_value "sid" "1"]) None None
      prepared_request.fresh = Returned r
    /\ case_insensitive_dict.get "Cookie" (prepared_request.headers r)
       = case_insensitive_dict.get "Cookie" ∅
    /\ prepared_request.cookies_ r = [cookie_of_name_value "sid" "1"].
Proof.
  apply (prepare_keeps_caller_headers "GET" "http://example.com/" "Cookie" ∅
           None None None None [cookie_of_name_value "sid" "1"] None None
           prepared_request.fresh).
  - intros call H. discriminate H.
  - intros H. apply to_lower_case_variant in H. vm_compute in H. discriminate H.
  - intros H. apply to_lower_case_variant in H. vm_compute in H. discriminate H.
Defined.

Lemma map_toupper_fixed (s : string) :
  no_lowercase s -> map_chars toupper s = s.
Proof.
  induction s as [| a s IH]; intros Hs; [reflexivity |].
  cbn [map_chars]. rewrite toupper_other, IH; [reflexivity | |].
  - intros c Hc. apply Hs. now right.
  - apply Hs. now left.
Qed.

(** Upper-casing the method is idempotent: preparing the prepared method
    again changes nothing, and a method without lower-case letters is kept
    as it is. *)
Theorem prepare_method_idempotent (method : string) (r : prepared_request.t) :
  prepared_request.prepare_method
    (prepared_request.method (prepared_request.prepare_method method r))
    (prepared_request.prepare_method method r)
  = prepared_request.prepare_method method r
  /\ (no_lowercase method ->
      prepared_request.method (prepared_request.prepare_method method r) = method).
Proof.
  unfold prepared_request.prepare_method, prepared_request.method.
  cbn [prepared_request.method_ prepared_request.with_method]. split.
  - unfold prepared_request.with_method.
    cbn [prepared_request.method_ prepared_request.url_ prepared_request.headers_
         prepared_request.body_ prepared_request.hooks_ prepared_request.cookies_
         prepared_request.body_position_].
    rewrite (map_toupper_fixed (map_chars toupper method));
      [reflexivity | apply map_toupper_spec].
  - apply map_toupper_fixed.
Qed.

Lemma prepare_method_idempotent_witness :
  prepared_request.method
    (prepared_request.prepare_method "GET" prepared_request.fresh) = "GET".
Proof.
  refine (proj2 (prepare_method_idempotent "GET" prepared_request.fresh) _).
  intros c [<- | [<- | [<- | []]]]; cbn; lia.
Defined.

(** ** Responses *)

(** [ok] and [raise_for_status] draw the same line: [raise_for_status]
    returns normally exactly on the responses for which [ok] is true, and
    raises HTTPError exactly on those for which it is false. *)
Theorem ok_iff_raise_for_status_returns (r : response.t) :
  (response.ok r = true <-> response.raise_for_status r = Returned tt)
  /\ (response.ok r = false <-> throws http_error (response.raise_for_status r)).
Proof.
  unfold response.ok, response.raise_for_status.
  destruct (Z.ltb_spec (response.status_code_ r) 400) as [Hlt | Hge];
    destruct (Z.geb_spec (response.status_code_ r) 400) as [Hge' | Hlt'];
    try lia.
  - split; split; try reflexivity; try discriminate.
    intros [msg Hmsg]. discriminate Hmsg.
  - split; split; try reflexivity; try discriminate.
    intros _. eexists. reflexivity.
Qed.

(** A response is a redirect exactly when its status is one of the five
    codes of [redirect_stati] and it carries a Location header, under any
    spelling of the header name; a permanent redirect is a redirect. *)
Theorem is_redirect_iff_status_and_location (r : response.t) :
  (response.is_redirect r = true
   <-> In (response.status_code r) redirect_stati
       /\ exists loc, case_insensitive_dict.get "location" (response.headers r)
                      = Some loc)
  /\ (response.is_permanent_redirect r = true -> response.is_redirect r = true).
Proof.
  unfold response.is_redirect, response.is_permanent_redirect,
    response.status_code, response.headers, redirect_stati.
  split.
  - rewrite andb_true_iff, !orb_true_iff, !Z.eqb_eq.
    rewrite dict_contains_get. cbn [In].
    change (case_insensitive_dict.get "Location")
      with (case_insensitive_dict.get "location").
    intuition lia.
  - rewrite !andb_true_iff, !orb_true_iff, !Z.eqb_eq. intuition.
Qed.

(** ** Sessions, continued *)












(** [get_adapter] takes the first matching prefix in key order, not the
    longest one.  A pointer mounted on a new session under a prefix that
    extends "http://" or "https://" is therefore never chosen, be it null
    or not: every URL under that prefix goes to the adapter of the bare
    scheme. *)
Theorem mounted_longer_prefix_is_shadowed (scheme rest url : string)
    (a : option adapter_ptr) :
  scheme = "http://" \/ scheme = "https://" ->
  rest <> "" ->
  starts_with (scheme +:+ rest) url = true ->
  session.get_adapter url (session.mount (scheme +:+ rest) a session.create)
  = Some (scheme, AdapterPtr default_http_adapter).
Proof.
  intros Hscheme Hrest Hurl.
  destruct rest as [| c rest]; [now destruct Hrest |].
  apply prefix_inv in Hurl. destruct Hurl as [t ->].
  destruct Hscheme as [-> | ->]; vm_compute; reflexivity.
Qed.

Lemma mounted_longer_prefix_is_shadowed_witness :
  session.get_adapter "https://high-traffic.example.com/api/data"
    (session.mount ("https://" +:+ "high-traffic.example.com/")
       (Some (AdapterPtr (HttpAdapter 100 100 5 true))) session.create)
  = Some ("https://", AdapterPtr default_http_adapter).
Proof.
  apply (mounted_longer_prefix_is_shadowed "https://"
           "high-traffic.example.com/"
           "https://high-traffic.example.com/api/data"
           (Some (AdapterPtr (HttpAdapter 100 100 5 true)))).
  - now right.
  - discriminate.
  - reflexivity.
Defined.

Lemma create_get_adapter (url : string) :
  exists key,
    session.get_adapter url session.create
    = Some (key, AdapterPtr default_http_adapter)
    /\ session.after_get_adapter url session.create = session.create.
Proof.
  unfold session.get_adapter, session.after_get_adapter.
  change (session.adapters_ session.create)
    with [("http://", Some (AdapterPtr default_http_adapter));
          ("https://", Some (AdapterPtr default_http_adapter))].
  cbn [session.first_prefix].
  destruct (starts_with "http://" url); [now eexists |].
  destruct (starts_with "https://" url); [now eexists |].
  now eexists.
Qed.

Lemma prepare_defined (method url : string)
    (headers : option case_insensitive_dict.t) (files : option files_dict)
    (data : option body_data) (params : option (list (string * string)))
    (auth : option (option (auth_base prepared_request.t)))
    (cookies : option cookie_jar.t) (hooks_cfg : option hooks)
    (json : option string) (r0 : prepared_request.t) :
  handler_defined auth ->
  prepared_request.prepare method url headers files data params auth cookies
    hooks_cfg json r0 <> Undefined.
Proof.
  intros Hdef. unfold prepared_request.prepare.
  set (r5 := prepared_request.prepare_body data files json _).
  destruct auth as [[[u p | u p | u p | call] |] |]; try discriminate.
  cbn [prepared_request.prepare_auth auth_call].
  pose proof (Hdef call r5 eq_refl) as Hcall.
  unfold prepared_request.prepare_auth, auth_call.
  destruct (call r5); [discriminate | discriminate | now destruct Hcall].
Qed.

(** The top-level [request] never delivers the answer of the adapter.  For
    every method, URL and options (the handler, when the user wrote it, may
    throw), its first resumption stops at the [co_await] on the request of
    its session, and the response delivered is a default-constructed one:
    status 0, empty reason, URL and history.  Such a response is [ok], and
    [raise_for_status] does nothing on it; an exception thrown while the
    request was prepared is not delivered either. *)
Theorem request_delivers_a_default_response (method url : string)
    (opts : request_options) :
  handler_defined (opt_auth opts) ->
  request method url opts = suspended_at_co_await
  /\ exists r,
       delivered (request method url opts) = Returned r
       /\ response.status_code r = 0
       /\ response.reason r = ""
       /\ response.url r = ""
       /\ response.history r = []
       /\ response.ok r = true
       /\ response.raise_for_status r = Returned tt.
Proof.
  intros Hdef.
  assert (Hrun : request method url opts = suspended_at_co_await).
  { unfold request, session.request, session.prepare_request, request.prepare.
    match goal with
    | |- context [prepared_request.prepare ?m ?u ?h ?f ?d ?p ?a ?c ?k ?j ?r0] =>
        pose proof (prepare_defined m u h f d p a c k j r0) as Hprep;
        destruct (prepared_request.prepare m u h f d p a c k j r0)
          as [prepped | e |]
    end.
    - unfold session.send.
      destruct (create_get_adapter (prepared_request.url prepped))
        as (key & -> & ->).
      reflexivity.
    - reflexivity.
    - destruct Hprep; [| reflexivity].
      intros call r Hauth. apply (Hdef call r).
      cbn in Hauth. destruct (opt_auth opts) as [[a |] |]; cbn in Hauth;
        try discriminate Hauth.
      now injection Hauth as ->. }
  split; [exact Hrun |]. rewrite Hrun.
  exists response.fresh. repeat split.
Qed.

Lemma request_delivers_a_default_response_witness :
  let opts :=
    RequestOptions None None None None None None
      (Some (Some (custom_auth
                     (fun _ => Thrown (Exn invalid_header "no credentials")))))
      None None None None None None None in
  request "GET" "https://example.com/" opts = suspended_at_co_await
  /\ exists r,
       delivered (request "GET" "https://example.com/" opts) = Returned r
       /\ response.status_code r = 0
       /\ response.reason r = ""
       /\ response.url r = ""
       /\ response.history r = []
       /\ response.ok r = true
       /\ response.raise_for_status r = Returned tt.
Proof.
  cbv zeta.
  apply (request_delivers_a_default_response "GET" "https://example.com/").
  intros call r H. injection H as <-. discriminate.
Defined.

(** ** Searching in strings *)

Lemma append_nil_l (s : string) : "" +:+ s = s.
Proof. reflexivity. Qed.

Lemma length_append (a b : string) :
  String.length (a +:+ b) = (String.length a + String.length b)%nat.
Proof.
  induction a as [| x a IH]; [reflexivity |].
  rewrite append_cons. cbn [String.length]. now rewrite IH.
Qed.

Lemma drop_chars_app (a b : string) : drop_chars (String.length a) (a +:+ b) = b.
Proof.
  induction a as [| x a IH]; [reflexivity |].
  rewrite append_cons. exact IH.
Qed.

Lemma drop_chars_add (n m : nat) (s : string) :
  drop_chars (n + m) s = drop_chars m (drop_chars n s).
Proof.
  revert s. induction n as [| n IH]; intros s; [reflexivity |].
  destruct s as [| x s]; cbn [Nat.add drop_chars].
  - now destruct m.
  - apply IH.
Qed.

Lemma has_char_cons_false (c d : ascii) (s : string) :
  has_char c (String d s) = false -> Ascii.eqb c d = false /\ has_char c s = false.
Proof. cbn [has_char]. destruct (Ascii.eqb c d); [discriminate | now split]. Qed.

Lemma find_str_eq (needle s : string) :
  find_str needle s
  = if String.prefix needle s then Some O
    else match s with
         | EmptyString => None
         | String _ s' =>
             match find_str needle s' with
             | Some i => Some (S i)
             | None => None
             end
         end.
Proof. destruct s; reflexivity. Qed.

Lemma prefix_first_char (c d : ascii) (n s : string) :
  Ascii.eqb c d = false -> String.prefix (String c n) (String d s) = false.
Proof.
  intros H. cbn [String.prefix].
  destruct (ascii_dec c d) as [-> |]; [| reflexivity].
  now rewrite Ascii.eqb_refl in H.
Qed.

(** The first occurrence of a needle is where it is written, when what
    precedes it does not hold the needle's first character. *)
Lemma find_str_after (c : ascii) (n pre post : string) :
  has_char c pre = false ->
  find_str (String c n) (pre +:+ String c n +:+ post) = Some (String.length pre).
Proof.
  induction pre as [| d pre IH]; intros H.
  - rewrite append_nil_l, find_str_eq. now rewrite prefix_append.
  - apply has_char_cons_false in H as [Hd Hpre].
    rewrite append_cons, find_str_eq, (prefix_first_char _ _ _ _ Hd).
    now rewrite (IH Hpre).
Qed.

Lemma find_str_no_char (c : ascii) (n s : string) :
  has_char c s = false -> find_str (String c n) s = None.
Proof.
  induction s as [| d s IH]; intros H; [reflexivity |].
  apply has_char_cons_false in H as [Hd Hs].
  now rewrite find_str_eq, (prefix_first_char _ _ _ _ Hd), (IH Hs).
Qed.

(** Where [find_str] finds the needle, the needle is. *)
Lemma find_str_Some (needle s : string) (i : nat) :
  find_str needle s = Some i ->
  exists pre, String.length pre = i
              /\ s = pre +:+ needle +:+ drop_chars (i + String.length needle) s.
Proof.
  revert i. induction s as [| x s IH]; intros i; rewrite find_str_eq.
  - destruct (String.prefix needle "") eqn:E; [| discriminate].
    intros [= <-]. exists "". split; [reflexivity |].
    apply prefix_inv in E. destruct E as [t Ht].
    rewrite append_nil_l. cbn [Nat.add].
    rewrite Ht at 2. now rewrite drop_chars_app.
  - destruct (String.prefix needle (String x s)) eqn:E.
    + intros [= <-]. exists "". split; [reflexivity |].
      apply prefix_inv in E. destruct E as [t Ht].
      rewrite append_nil_l. cbn [Nat.add].
      rewrite Ht at 2. now rewrite drop_chars_app.
    + destruct (find_str needle s) as [j |] eqn:Ej; [| discriminate].
      intros [= <-]. destruct (IH j eq_refl) as (pre & Hlen & Hs).
      exists (String x pre). split; [cbn; now rewrite Hlen |].
      rewrite append_cons. cbn [Nat.add drop_chars]. now rewrite <- Hs.
Qed.

(** Where the needle occurs, [find_str] finds it there or earlier. *)
Lemma find_str_occurs (needle a b : string) :
  exists j, find_str needle (a +:+ needle +:+ b) = Some j
            /\ (j <= String.length a)%nat.
Proof.
  induction a as [| x a (j & Hj & Hle)].
  - exists O. rewrite append_nil_l, find_str_eq. now rewrite prefix_append.
  - rewrite append_cons, find_str_eq.
    destruct (String.prefix needle _).
    + exists O. split; [reflexivity | lia].
    + rewrite Hj. exists (S j). split; [reflexivity | cbn; lia].
Qed.

(** [find_str] finds the needle exactly in the strings that contain it. *)
Lemma find_str_contains (needle s : string) :
  is_Some (find_str needle s) <-> contains_substring needle s.
Proof.
  split.
  - intros [i Hi]. apply find_str_Some in Hi. destruct Hi as (pre & _ & Hs).
    now exists pre, (drop_chars (i + String.length needle) s).
  - intros (a & b & ->). destruct (find_str_occurs needle a b) as (j & Hj & _).
    rewrite Hj. eauto.
Qed.

Lemma find_char_app (c : ascii) (a b : string) :
  has_char c a = false ->
  find_char c (a +:+ b)
  = match find_char c b with
    | Some i => Some (String.length a + i)%nat
    | None => None
    end.
Proof.
  induction a as [| d a IH]; intros H.
  - rewrite append_nil_l. now destruct (find_char c b).
  - apply has_char_cons_false in H as [Hd Ha].
    rewrite append_cons. cbn [find_char]. rewrite Hd, (IH Ha).
    now destruct (find_char c b).
Qed.

(** ** URLs and file names *)

(** [path_url] splits a URL at the host.  For a URL written as a scheme
    without a colon, "://", a host without a slash and a path that is
    empty or starts with a slash, it returns the path, and "/" when the
    path is empty.  A URL without a colon is returned whole. *)
Theorem path_url_is_what_follows_the_host (scheme host path url : string)
    (r : prepared_request.t) :
  has_char ":" scheme = false ->
  has_char "/" host = false ->
  path = "" \/ (exists p, path = String "/" p) ->
  prepared_request.path_url
    (prepared_request.with_url (scheme +:+ "://" +:+ host +:+ path) r)
  = (if String.eqb path "" then "/" else path)
  /\ (has_char ":" url = false ->
      prepared_request.path_url (prepared_request.with_url url r) = url).
Proof.
  intros Hscheme Hhost Hpath. unfold prepared_request.path_url.
  cbn [prepared_request.url_ prepared_request.with_url]. split.
  - rewrite (find_str_after ":" "//" scheme (host +:+ path) Hscheme).
    unfold find_char_from.
    rewrite drop_chars_add,
      (drop_chars_app scheme ("://" +:+ host +:+ path)).
    change (drop_chars 3 ("://" +:+ host +:+ path)) with (host +:+ path).
    rewrite (find_char_app "/" host path Hhost).
    destruct Hpath as [-> | [p ->]].
    + reflexivity.
    + cbn [find_char]. rewrite Ascii.eqb_refl. cbn [String.eqb].
      rewrite !drop_chars_add,
        (drop_chars_app scheme ("://" +:+ host +:+ String "/" p)).
      change (drop_chars 3 ("://" +:+ host +:+ String "/" p))
        with (host +:+ String "/" p).
      now rewrite drop_chars_app.
  - intros Hurl. now rewrite (find_str_no_char ":" "//" url Hurl).
Qed.

Lemma path_url_is_what_follows_the_host_witness :
  prepared_request.path_url
    (prepared_request.with_url
       ("https" +:+ "://" +:+ "api.example.com" +:+ "/data?k=v")
       prepared_request.fresh)
  = "/data?k=v".
Proof.
  refine (proj1 (path_url_is_what_follows_the_host "https" "api.example.com"
                   "/data?k=v" "" prepared_request.fresh _ _ _)).
  - reflexivity.
  - reflexivity.
  - right. now eexists.
Defined.

(** [prepend_scheme_if_needed] looks for "://" anywhere in the URL: a URL
    that contains it is returned as it is, any other URL gets the scheme
    and "://" in front.  The result always contains "://", so a second
    call, with any scheme, changes nothing. *)
Theorem prepend_scheme_adds_it_once (url scheme scheme' : string) :
  (contains_substring "://" url ->
   utils.prepend_scheme_if_needed url scheme = url)
  /\ (~ contains_substring "://" url ->
      utils.prepend_scheme_if_needed url scheme = scheme +:+ "://" +:+ url)
  /\ contains_substring "://" (utils.prepend_scheme_if_needed url scheme)
  /\ utils.prepend_scheme_if_needed
       (utils.prepend_scheme_if_needed url scheme) scheme'
     = utils.prepend_scheme_if_needed url scheme.
Proof.
  assert (Hhas : forall u s, contains_substring "://" u ->
                             utils.prepend_scheme_if_needed u s = u).
  { intros u s Hu. apply find_str_contains in Hu. destruct Hu as [i Hi].
    unfold utils.prepend_scheme_if_needed. now rewrite Hi. }
  assert (Hres : contains_substring "://"
                   (utils.prepend_scheme_if_needed url scheme)).
  { unfold utils.prepend_scheme_if_needed.
    destruct (find_str "://" url) as [i |] eqn:E.
    - apply find_str_contains. rewrite E. eauto.
    - now exists scheme, url. }
  split; [apply Hhas |]. split; [| split; [exact Hres | now apply Hhas]].
  intros Hno. unfold utils.prepend_scheme_if_needed.
  destruct (find_str "://" url) as [i |] eqn:E; [| reflexivity].
  destruct Hno. apply find_str_contains. rewrite E. eauto.
Qed.

Lemma prepend_scheme_adds_it_once_witness :
  utils.prepend_scheme_if_needed "example.com" "https" = "https://example.com".
Proof.
  refine (proj1 (proj2 (prepend_scheme_adds_it_once "example.com" "https" "")) _).
  intros H. apply find_str_contains in H. destruct H as [i Hi].
  vm_compute in Hi. discriminate Hi.
Defined.

Lemma find_last_of_None (chars s : string) (c : ascii) :
  find_last_of chars s = None -> has_char c chars = true -> has_char c s = false.
Proof.
  intros Hnone Hc. induction s as [| d s IH]; [reflexivity |].
  cbn [find_last_of] in Hnone.
  destruct (find_last_of chars s); [discriminate Hnone |].
  destruct (has_char d chars) eqn:Hd; [discriminate Hnone |].
  cbn [has_char]. destruct (Ascii.eqb_spec c d) as [-> | _]; [congruence |].
  now apply IH.
Qed.

Lemma find_last_of_Some (chars s : string) (i : nat) :
  find_last_of chars s = Some i ->
  exists pre c post,
    s = pre +:+ String c post
    /\ String.length pre = i
    /\ has_char c chars = true
    /\ find_last_of chars post = None.
Proof.
  revert i. induction s as [| d s IH]; intros i H; [discriminate H |].
  cbn [find_last_of] in H.
  destruct (find_last_of chars s) as [j |] eqn:Ej.
  - injection H as <-. destruct (IH j eq_refl) as (pre & c & post & -> & Hl & Hc & Hn).
    exists (String d pre), c, post. repeat split; try assumption.
    cbn. now rewrite Hl.
  - destruct (has_char d chars) eqn:Hd; [| discriminate H].
    injection H as <-. now exists "", d, s.
Qed.

(** [guess_filename] always gives a name: the part of the path after its
    last slash or backslash, which holds neither of the two; the path is
    that name behind a directory part that is empty or ends with a slash
    or a backslash. *)
Theorem guess_filename_is_the_last_segment (path : string) :
  exists fname dir,
    utils.guess_filename path = Some fname
    /\ has_char "/" fname = false
    /\ has_char "\" fname = false
    /\ path = dir +:+ fname
    /\ (dir = ""
        \/ exists d c, dir = d +:+ String c "" /\ (c = "/"%char \/ c = "\"%char)).
Proof.
  unfold utils.guess_filename.
  destruct (find_last_of "/\" path) as [i |] eqn:E.
  - apply find_last_of_Some in E.
    destruct E as (pre & c & post & -> & <- & Hc & Hnone).
    exists post, (pre +:+ String c ""). split.
    + rewrite drop_chars_add, drop_chars_app. reflexivity.
    + split; [now apply (find_last_of_None "/\" post "/") |].
      split; [now apply (find_last_of_None "/\" post "\") |].
      split; [now rewrite append_assoc, append_cons, append_nil_l |].
      right. exists pre, c. split; [reflexivity |].
      cbn [has_char] in Hc.
      destruct (Ascii.eqb_spec c "/") as [-> | _]; [now left |].
      destruct (Ascii.eqb_spec c "\") as [-> | _]; [now right | discriminate Hc].
  - exists path, "". split; [reflexivity |].
    split; [now apply (find_last_of_None "/\" path "/") |].
    split; [now apply (find_last_of_None "/\" path "\") |].
    split; [reflexivity | now left].
Qed.

(** [get_encoding_from_headers] returns what follows the first "charset="
    of the Content-Type header, to the end of the value, parameters after
    the charset included.  It gives a result exactly when the header, found
    under any spelling of its name, contains "charset=" in these very
    letters, and none when the header is missing. *)
Theorem get_encoding_is_after_first_charset (h : case_insensitive_dict.t) :
  (forall e, utils.get_encoding_from_headers h = Some e ->
     exists ct pre,
       case_insensitive_dict.get "content-type" h = Some ct
       /\ ct = pre +:+ "charset=" +:+ e
       /\ ~ contains_substring "charset=" pre)
  /\ (forall ct, case_insensitive_dict.get "content-type" h = Some ct ->
        (is_Some (utils.get_encoding_from_headers h)
         <-> contains_substring "charset=" ct))
  /\ (case_insensitive_dict.get "content-type" h = None ->
      utils.get_encoding_from_headers h = None).
Proof.
  unfold utils.get_encoding_from_headers.
  change (case_insensitive_dict.get "Content-Type" h)
    with (case_insensitive_dict.get "content-type" h).
  destruct (case_insensitive_dict.get "content-type" h) as [ct |].
  - split; [| split; [| discriminate]].
    + intros e He.
      destruct (find_str "charset=" ct) as [i |] eqn:Ei; [| discriminate He].
      injection He as <-.
      destruct (find_str_Some _ _ _ Ei) as (pre & Hlen & Hct).
      change (String.length "charset=") with 8%nat in Hct.
      exists ct, pre. split; [reflexivity |]. split; [exact Hct |].
      intros (a & b & Hpre).
      rewrite Hct, Hpre, !append_assoc in Ei.
      destruct (find_str_occurs "charset=" a
                  (b +:+ "charset=" +:+ drop_chars (i + 8) ct))
        as (j & Hj & Hle).
      rewrite Hj in Ei. injection Ei as ->.
      rewrite Hpre, !length_append in Hlen. cbn in Hlen. lia.
    + intros ct' [= <-]. rewrite <- find_str_contains.
      destruct (find_str "charset=" ct); split; intros [x Hx];
        try discriminate Hx; eauto.
  - split; [intros e He; discriminate He |].
    split; [intros ct H; discriminate H | reflexivity].
Qed.

Lemma get_encoding_is_after_first_charset_witness :
  exists ct pre,
    case_insensitive_dict.get "content-type"
      (case_insensitive_dict.set "Content-Type" "text/html; charset=utf-8" ∅)
    = Some ct
    /\ ct = pre +:+ "charset=" +:+ "utf-8"
    /\ ~ contains_substring "charset=" pre.
Proof.
  apply (proj1 (get_encoding_is_after_first_charset
                  (case_insensitive_dict.set "Content-Type"
                     "text/html; charset=utf-8" ∅)) "utf-8").
  reflexivity.
Defined.
